(** * Cron-Parser-JS: the field-expansion engine of [cron_parser.js]

    A shallow embedding of [uniqueSorted], [replaceNames], [parseToken] and
    [parseField], together with the JavaScript string primitives they call
    ([trim], [split], [includes], [toLowerCase], [parseInt], [String]), and
    the properties of field expansion proved about them.

    Conventions of the embedding.
    - A JavaScript string is a [string]: a sequence of code units, of which
      this development covers U+0000..U+00FF.
    - A JavaScript number that the parser handles is always an integer; it is
      a [Z].  [NaN] is the [None] of [option Z].  The parser only compares
      numbers with the small bounds of a field and adds a step to a value that
      already lies inside these bounds, so the unbounded integers give the
      same arrays as IEEE doubles do.
    - [throw new Error(msg)] is the [Err] of the [result] monad; the message is
      kept as a constructor of [error] with the interpolated values. *)

From Stdlib Require Import ZArith List String Ascii Bool Lia.
From Stdlib Require Import Sorted Permutation DecimalString DecimalPos.
From Equations Require Import Equations.
Import ListNotations.

Open Scope string_scope.
Open Scope Z_scope.

(** ** Errors and the error monad *)

Inductive error : Type :=
| MissingField
    (* 'Missing field' *)
| InvalidStep (token : string)
    (* `Invalid step in token '${token}'` *)
| InvalidRange (token : string)
    (* `Invalid range in token '${token}'` *)
| InvalidValue (rangePart token : string)
    (* `Invalid value '${rangePart}' in token '${token}'` *)
| OutOfBounds (token : string) (min max : Z)
    (* `Value out of bounds in token '${token}' (allowed ${min}-${max})` *)
| TypeError.
    (* reading [.min] of [undefined], raised by the engine itself *)

Inductive result (A : Type) : Type :=
| Ok (a : A)
| Err (e : error).
Arguments Ok {A} a.
Arguments Err {A} e.

Definition bind {A B : Type} (m : result A) (k : A -> result B) : result B :=
  match m with
  | Ok a => k a
  | Err e => Err e
  end.

Notation "x <- m ;; k" := (bind m (fun x => k))
  (at level 61, m at next level, right associativity).
Notation "' p <- m ;; k" := (bind m (fun x => let p := x in k))
  (at level 61, p pattern, m at next level, right associativity).

(** ** JavaScript primitives used by the parser *)

Module Js.

(** White space as [String.prototype.trim] and [parseInt] see it: TAB, LF,
    VT, FF, CR, SP and NBSP. *)
Definition isWhiteSpace (c : ascii) : bool :=
  let n := nat_of_ascii c in
  ((9 <=? n) && (n <=? 13) || (n =? 32) || (n =? 160))%nat.

Definition isDigit (c : ascii) : bool :=
  let n := nat_of_ascii c in ((48 <=? n) && (n <=? 57))%nat.

Definition isUpper (c : ascii) : bool :=
  let n := nat_of_ascii c in ((65 <=? n) && (n <=? 90))%nat.

Definition isLower (c : ascii) : bool :=
  let n := nat_of_ascii c in ((97 <=? n) && (n <=? 122))%nat.

(** The character class [[a-zA-Z]]. *)
Definition isLetter (c : ascii) : bool := isUpper c || isLower c.

Definition toLowerChar (c : ascii) : ascii :=
  if isUpper c then ascii_of_nat (nat_of_ascii c + 32) else c.

(** [toLowerCase], which the parser applies to three letters of [[a-zA-Z]]. *)
Fixpoint toLowerCase (s : string) : string :=
  match s with
  | EmptyString => EmptyString
  | String c r => String (toLowerChar c) (toLowerCase r)
  end.

Fixpoint trimStart (s : string) : string :=
  match s with
  | String c r => if isWhiteSpace c then trimStart r else s
  | EmptyString => EmptyString
  end.

Fixpoint trimEnd (s : string) : string :=
  match s with
  | String c r =>
      match trimEnd r with
      | EmptyString => if isWhiteSpace c then EmptyString else String c EmptyString
      | r' => String c r'
      end
  | EmptyString => EmptyString
  end.

Definition trim (s : string) : string := trimStart (trimEnd s).

(** [s.split(sep)] for a separator of one character: never empty. *)
Fixpoint split (sep : ascii) (s : string) : list string :=
  match s with
  | EmptyString => [EmptyString]
  | String c r =>
      if Ascii.eqb c sep then EmptyString :: split sep r
      else match split sep r with
           | h :: t => String c h :: t
           | [] => [String c EmptyString]
           end
  end.

(** [s.includes(c)] for a needle of one character. *)
Fixpoint includes (c : ascii) (s : string) : bool :=
  match s with
  | EmptyString => false
  | String d r => Ascii.eqb d c || includes c r
  end.

Definition digitValue (c : ascii) : Z := Z.of_nat (nat_of_ascii c - 48).

(** The longest prefix of decimal digits, read left to right.  [acc] is
    [None] as long as no digit was read. *)
Fixpoint readDigits (s : string) (acc : option Z) : option Z :=
  match s with
  | String c r =>
      if isDigit c
      then readDigits r (Some (10 * match acc with Some a => a | None => 0 end
                               + digitValue c))
      else acc
  | EmptyString => acc
  end.

(** [parseInt(s, 10)]: skip leading white space, read an optional sign, then
    the longest prefix of digits; [NaN] when there is no digit. *)
Definition parseInt (s : string) : option Z :=
  match trimStart s with
  | String c r =>
      if Ascii.eqb c "-" then option_map Z.opp (readDigits r None)
      else if Ascii.eqb c "+" then readDigits r None
      else readDigits (String c r) None
  | EmptyString => None
  end.

(** [String(n)] for an integer [n]. *)
Definition String_ (n : Z) : string := NilEmpty.string_of_int (Z.to_int n).

(** [c.repeat(n)] for a string [c] of one character. *)
Fixpoint repeat (c : ascii) (n : nat) : string :=
  match n with
  | O => EmptyString
  | S k => String c (repeat c k)
  end.

(** [arr.join(sep)]. *)
Fixpoint join (sep : string) (arr : list string) : string :=
  match arr with
  | [] => EmptyString
  | x :: rest =>
      match rest with
      | [] => x
      | _ :: _ => x ++ sep ++ join sep rest
      end
  end.

(** [s.split(/\s+/)]: the pieces between the maximal runs of white space.  A
    run that goes on is skipped; its last character ends the piece before
    it. *)
Fixpoint splitWhiteSpace (s : string) : list string :=
  match s with
  | EmptyString => [EmptyString]
  | String c r =>
      if isWhiteSpace c then
        match r with
        | String c' _ =>
            if isWhiteSpace c' then splitWhiteSpace r
            else EmptyString :: splitWhiteSpace r
        | EmptyString => EmptyString :: splitWhiteSpace r
        end
      else match splitWhiteSpace r with
           | h :: t => String c h :: t
           | [] => [String c EmptyString]
           end
  end.

(** The line feed and the double quote. *)
Definition LF : string := String (ascii_of_nat 10) EmptyString.
Definition DQUOTE : string := String (ascii_of_nat 34) EmptyString.

End Js.

(** ** The constant tables *)

Record FieldDef : Type := mkFieldDef { name : string; min : Z; max : Z }.

Definition FIELD_DEFS : list FieldDef :=
  [ mkFieldDef "minute" 0 59;
    mkFieldDef "hour" 0 23;
    mkFieldDef "day of month" 1 31;
    mkFieldDef "month" 1 12;
    mkFieldDef "day of week" 0 6 ].

Definition NameTable : Type := list (string * Z).

Definition MONTH_NAMES : NameTable :=
  [ ("jan", 1); ("feb", 2); ("mar", 3); ("apr", 4); ("may", 5); ("jun", 6);
    ("jul", 7); ("aug", 8); ("sep", 9); ("oct", 10); ("nov", 11); ("dec", 12) ].

Definition DOW_NAMES : NameTable :=
  [ ("sun", 0); ("mon", 1); ("tue", 2); ("wed", 3); ("thu", 4); ("fri", 5);
    ("sat", 6) ].

(** [nameMap[key]], [None] standing for [undefined]. *)
Fixpoint lookup (nameMap : NameTable) (key : string) : option Z :=
  match nameMap with
  | [] => None
  | (k, v) :: rest => if String.eqb k key then Some v else lookup rest key
  end.

(** ** uniqueSorted *)

(** [Array.from(new Set(arr))]: the first occurrence of each value, in the
    order of insertion. *)
Fixpoint setFrom (seen arr : list Z) : list Z :=
  match arr with
  | [] => []
  | x :: rest =>
      if existsb (Z.eqb x) seen then setFrom seen rest
      else x :: setFrom (x :: seen) rest
  end.

(** [s.sort((a,b) => a - b)], as an insertion sort on the comparator. *)
Fixpoint insertBy (cmp : Z -> Z -> Z) (x : Z) (l : list Z) : list Z :=
  match l with
  | [] => [x]
  | y :: r => if cmp x y <=? 0 then x :: l else y :: insertBy cmp x r
  end.

Definition sortBy (cmp : Z -> Z -> Z) (l : list Z) : list Z :=
  fold_right (insertBy cmp) [] l.

(** The comparator [(a,b) => a - b]. *)
Definition numeric (a b : Z) : Z := a - b.

Definition uniqueSorted (arr : list Z) : list Z :=
  let s := setFrom [] arr in
  sortBy numeric s.

(** ** replaceNames *)

(** [token.replace(/[a-zA-Z]{3}/g, f)]: the scan goes left to right; where
    three letters follow each other they are one match, replaced by [f], and
    the scan goes on after them; any other character is copied. *)
Fixpoint replaceLetters3 (f : string -> string) (s : string) : string :=
  match s with
  | EmptyString => EmptyString
  | String c1 tl =>
      match tl with
      | String c2 (String c3 rest) =>
          if Js.isLetter c1 && Js.isLetter c2 && Js.isLetter c3
          then f (String c1 (String c2 (String c3 EmptyString)))
                 ++ replaceLetters3 f rest
          else String c1 (replaceLetters3 f tl)
      | _ => String c1 (replaceLetters3 f tl)
      end
  end.

Definition replaceNames (token : string) (fieldIndex : nat) : string :=
  let nameMap :=
    if (fieldIndex =? 3)%nat then Some MONTH_NAMES
    else if (fieldIndex =? 4)%nat then Some DOW_NAMES
    else None in
  match nameMap with
  | None => token
  | Some nameMap =>
      replaceLetters3
        (fun m =>
           let key := Js.toLowerCase m in
           match lookup nameMap key with
           | Some v => Js.String_ v
           | None => m
           end)
        token
  end.

(** ** parseToken *)

(** The generation loop
    [for (let v = rangeStart; v <= rangeEnd; v += step) out.push(v)],
    entered with a step that the check before it found positive. *)
Equations? forLoop (step : Z) (Hstep : 0 < step) (rangeEnd v : Z) : list Z
  by wf (Z.to_nat (rangeEnd + 1 - v)) lt :=
  forLoop step Hstep rangeEnd v with Z_le_gt_dec v rangeEnd := {
    | left _ => v :: forLoop step Hstep rangeEnd (v + step);
    | right _ => [] }.
Proof. lia. Qed.

(** Lines 51-53: the range part, and the step. *)
Definition splitStep (token : string) : string * option string :=
  let parts := Js.split "/" token in
  (nth 0 parts EmptyString, nth_error parts 1).

Definition parseStep (token : string) (stepPart : option string)
  : result { step : Z | 0 < step } :=
  let step :=
    match stepPart with
    | Some (String _ _ as s) => Js.parseInt s
    | _ => Some 1
    end in
  match step with
  | None => Err (InvalidStep token)
  | Some step =>
      match Z_le_gt_dec step 0 with
      | left _ => Err (InvalidStep token)
      | right H => Ok (exist _ step (Z.gt_lt _ _ H))
      end
  end.

(** Lines 55-70: the bounds that the range part denotes. *)
Definition parseRange (token rangePart : string) (min max : Z)
  : result (Z * Z) :=
  if String.eqb rangePart "*" then Ok (min, max)
  else if Js.includes "-" rangePart then
    let ab := map Js.parseInt (Js.split "-" rangePart) in
    match nth 0 ab None, nth 1 ab None with
    | Some a, Some b => Ok (a, b)
    | _, _ => Err (InvalidRange token)
    end
  else
    match Js.parseInt rangePart with
    | Some val => Ok (val, val)
    | None => Err (InvalidValue rangePart token)
    end.

(** Lines 73-76: in the day-of-week field a bound 7 becomes 0. *)
Definition foldSeven (fieldIndex : nat) (bounds : Z * Z) : Z * Z :=
  let '(rangeStart, rangeEnd) := bounds in
  if (fieldIndex =? 4)%nat then
    ((if rangeStart =? 7 then 0 else rangeStart),
     (if rangeEnd =? 7 then 0 else rangeEnd))
  else (rangeStart, rangeEnd).

(** Line 79: the test of the bounds. *)
Definition outOfBounds (min max rangeStart rangeEnd : Z) : bool :=
  (rangeStart <? min) || (rangeStart >? max)
  || (rangeEnd <? min) || (rangeEnd >? max).

(** Lines 46-90. *)
Definition parseToken (token : string) (min max : Z) (fieldIndex : nat)
  : result (list Z) :=
  let token := Js.trim token in
  let token := replaceNames token fieldIndex in
  let '(rangePart, stepPart) := splitStep token in
  step <- parseStep token stepPart ;;
  bounds <- parseRange token rangePart min max ;;
  let '(rangeStart, rangeEnd) := foldSeven fieldIndex bounds in
  if outOfBounds min max rangeStart rangeEnd
  then Err (OutOfBounds token min max)
  else Ok (forLoop (proj1_sig step) (proj2_sig step) rangeEnd rangeStart).

(** ** parseField *)

(** The loop [for (const p of parts) values = values.concat(parseToken(...))];
    [def] is [FIELD_DEFS[defIndex]], [None] standing for [undefined]. *)
Fixpoint concatTokens (def : option FieldDef) (defIndex : nat)
    (parts : list string) (values : list Z) : result (list Z) :=
  match parts with
  | [] => Ok values
  | p :: rest =>
      match def with
      | None => Err TypeError
      | Some def =>
          out <- parseToken p (min def) (max def) defIndex ;;
          concatTokens (Some def) defIndex rest (values ++ out)
      end
  end.

(** Line 95: the tokens of a field, trimmed, the empty ones dropped. *)
Definition fieldParts (fieldStr : string) : list string :=
  filter (fun p => (0 <? String.length p)%nat)
         (map Js.trim (Js.split "," fieldStr)).

(** Lines 92-101. *)
Definition parseField (fieldStr : string) (defIndex : nat)
  : result (list Z) :=
  let def := nth_error FIELD_DEFS defIndex in
  if String.eqb fieldStr "" then Err MissingField
  else
    let parts := fieldParts fieldStr in
    values <- concatTokens def defIndex parts [] ;;
    Ok (uniqueSorted values).

(** ** padLeftRight and formatOutput *)

(** Lines 22-26.  The callers pass a string and the width 14. *)
Definition padLeftRight (s : string) (width : nat) : string :=
  if (width <=? String.length s)%nat then s
  else s ++ Js.repeat " " (width - String.length s).

(** The loop of lines 105-109: one line for each field definition, from the
    index [i] on; [expanded[i]] is [undefined] beyond the end of [expanded],
    and its [.map] raises. *)
Fixpoint fieldLines (defs : list FieldDef) (i : nat)
    (expanded : list (list Z)) : result (list string) :=
  match defs with
  | [] => Ok []
  | d :: rest =>
      match nth_error expanded i with
      | None => Err TypeError
      | Some xs =>
          let arr := map Js.String_ xs in
          lines <- fieldLines rest (S i) expanded ;;
          Ok ((padLeftRight (name d) 14 ++ Js.join " " arr) :: lines)
      end
  end.

(** Lines 103-112. *)
Definition formatOutput (expanded : list (list Z)) (command : string)
  : result string :=
  lines <- fieldLines FIELD_DEFS 0 expanded ;;
  Ok (Js.join Js.LF (lines ++ [padLeftRight "command" 14 ++ command])).

(** ** main *)

(** What a run of the program leaves: the lines written by [console.log], the
    lines written by [console.error], and the exit code (0 when [main]
    returns). *)
Record outcome : Type :=
  mkOutcome { stdout : list string; stderr : list string; exitCode : Z }.

(** Line 133, [timeFields.map((f, i) => parseField(f, i))], from the index
    [i] on: the first field that fails ends the map. *)
Fixpoint expandFields (timeFields : list string) (i : nat)
  : result (list (list Z)) :=
  match timeFields with
  | [] => Ok []
  | f :: rest =>
      x <- parseField f i ;;
      xs <- expandFields rest (S i) ;;
      Ok (x :: xs)
  end.

Section Main.

(** The text of the [TypeError] of the engine, which the source does not
    fix. *)
Variable engineMessage : string.

(** [err.message]. *)
Definition message (e : error) : string :=
  match e with
  | MissingField => "Missing field"
  | InvalidStep token => "Invalid step in token '" ++ token ++ "'"
  | InvalidRange token => "Invalid range in token '" ++ token ++ "'"
  | InvalidValue rangePart token =>
      "Invalid value '" ++ rangePart ++ "' in token '" ++ token ++ "'"
  | OutOfBounds token min max =>
      "Value out of bounds in token '" ++ token ++ "' (allowed "
        ++ Js.String_ min ++ "-" ++ Js.String_ max ++ ")"
  | TypeError => engineMessage
  end.

(** Lines 114-139; [argv] is [process.argv]. *)
Definition main (argv : list string) : outcome :=
  let raw := Js.trim (Js.join " " (skipn 2 argv)) in
  if String.eqb raw "" then
    mkOutcome []
      [ "Usage: node cron-parser.js " ++ Js.DQUOTE ++ "<cron expression>"
          ++ Js.DQUOTE;
        "Example: node cron-parser.js " ++ Js.DQUOTE
          ++ "*/15 0 1,15 * 1-5 /usr/bin/find" ++ Js.DQUOTE ]
      1
  else
    let parts := Js.splitWhiteSpace raw in
    if (List.length parts <? 6)%nat then
      mkOutcome []
        [ "Invalid cron expression: expected at least 6 space-separated parts (5 time fields + command)" ]
        2
    else
      let timeFields := firstn 5 parts in
      let command := Js.join " " (skipn 5 parts) in
      match (expanded <- expandFields timeFields 0 ;;
             formatOutput expanded command) with
      | Ok text => mkOutcome [text] [] 0
      | Err err =>
          mkOutcome []
            [ "Error parsing cron expression:" ++ " " ++ message err ]
            3
      end.

End Main.

(** ** Vocabulary of the statements *)

(** Every character of [s] satisfies [P]. *)
Fixpoint allChars (P : ascii -> bool) (s : string) : bool :=
  match s with
  | EmptyString => true
  | String c r => P c && allChars P r
  end.

(** [s] is empty or made of white space only. *)
Definition isBlank (s : string) : bool := allChars Js.isWhiteSpace s.

(** [s] does not go on with a digit. *)
Definition noLeadingDigit (s : string) : bool :=
  match s with
  | String c _ => negb (Js.isDigit c)
  | EmptyString => true
  end.

(** A group of three letters, one match of [[a-zA-Z]{3}]. *)
Definition isGroup (w : string) : bool :=
  (String.length w =? 3)%nat && allChars Js.isLetter w.

(** Characters of a token made of numbers, [-] and [/]. *)
Definition isNumeric (c : ascii) : bool :=
  Js.isDigit c || Ascii.eqb c "-" || Ascii.eqb c "/".

(** A position of a token where the scan of [[a-zA-Z]{3}] can start a match:
    the start of the token, the position after a character that is not a
    letter, and the position after a group that starts at such a position. *)
Inductive atBoundary : string -> Prop :=
| boundary_start : atBoundary ""
| boundary_other (pre : string) (c : ascii) :
    Js.isLetter c = false -> atBoundary (pre ++ String c "")
| boundary_group (pre w : string) :
    atBoundary pre -> isGroup w = true -> atBoundary (pre ++ w).


(** A character that is neither trimmed away nor a comma. *)
Definition isPlain (c : ascii) : bool :=
  negb (Js.isWhiteSpace c) && negb (Ascii.eqb c ",").

(** Name resolution has nothing to look at in [s]: the field has no names, or
    [s] has no letter. *)
Definition noNames (fieldIndex : nat) (s : string) : bool :=
  if ((fieldIndex =? 3) || (fieldIndex =? 4))%nat
  then allChars (fun c => negb (Js.isLetter c)) s
  else true.

(** A piece of a token that stays as it is up to the parsing of numbers. *)
Definition isClean (fieldIndex : nat) (s : string) : bool :=
  allChars isPlain s && noNames fieldIndex s.

(** What may follow the digits of a number inside a token without ending the
    part of the token it stands in: no digit first, no white space, no
    comma, no [/], no [-] and, in the fields that have names, no letter. *)
Definition isGarbage (fieldIndex : nat) (g : string) : bool :=
  noLeadingDigit g && isClean fieldIndex g
  && negb (Js.includes "/" g) && negb (Js.includes "-" g).

(** The integers [lo], [lo+1], ..., [hi] in ascending order. *)
Definition interval (lo hi : Z) : list Z :=
  map (fun k => lo + Z.of_nat k) (seq 0 (Z.to_nat (hi + 1 - lo))).

(** * Properties *)

(** ** The expression of the usage note

    [*/15 0 1,15 * 1-5 /usr/bin/find], field by field. *)

Example usage_minute : parseField "*/15" 0 = Ok [0; 15; 30; 45].
Proof. vm_compute. reflexivity. Qed.

Example usage_hour : parseField "0" 1 = Ok [0].
Proof. vm_compute. reflexivity. Qed.

Example usage_day_of_month : parseField "1,15" 2 = Ok [1; 15].
Proof. vm_compute. reflexivity. Qed.

Example usage_month : parseField "*" 3 = Ok (interval 1 12).
Proof. vm_compute. reflexivity. Qed.

Example usage_day_of_week : parseField "1-5" 4 = Ok [1; 2; 3; 4; 5].
Proof. vm_compute. reflexivity. Qed.

Example reversed_range : parseField "40-10/15" 0 = Ok [].
Proof. vm_compute. reflexivity. Qed.

Example invalid_steps :
  parseField "*/0" 0 = Err (InvalidStep "*/0") /\
  parseField "*/-2" 0 = Err (InvalidStep "*/-2") /\
  parseField "*/x" 0 = Err (InvalidStep "*/x").
Proof. repeat split; vm_compute; reflexivity. Qed.

(** ** Facts about uniqueSorted *)

Lemma setFrom_In (arr seen : list Z) (x : Z) :
  In x (setFrom seen arr) <-> In x arr /\ ~ In x seen.
Proof.
  revert seen; induction arr as [|y rest IH]; intros seen; simpl.
  - tauto.
  - destruct (existsb (Z.eqb y) seen) eqn:E.
    + apply existsb_exists in E as (z & Hz & Hyz).
      apply Z.eqb_eq in Hyz; subst z.
      rewrite IH. split.
      * tauto.
      * intros [[->|H] Hn]; [contradiction | tauto].
    + assert (Hy : ~ In y seen).
      { intros Hin. apply Bool.not_true_iff_false in E. apply E.
        apply existsb_exists. exists y. split; [assumption | apply Z.eqb_refl]. }
      simpl. rewrite IH. simpl. split.
      * intros [->|[H Hn]]; [tauto|]. split; [tauto|]. intros Hs. apply Hn. tauto.
      * intros [[->|H] Hn]; [tauto|].
        destruct (Z.eq_dec y x) as [->|Hne]; [tauto|].
        right. split; [assumption|]. intros [Heq|Hs]; [congruence | tauto].
Qed.

Lemma setFrom_NoDup (arr seen : list Z) : NoDup (setFrom seen arr).
Proof.
  revert seen; induction arr as [|y rest IH]; intros seen; simpl.
  - constructor.
  - destruct (existsb (Z.eqb y) seen); [apply IH|].
    constructor; [|apply IH].
    rewrite setFrom_In. simpl. tauto.
Qed.

Lemma insertBy_perm (x : Z) (l : list Z) :
  Permutation (x :: l) (insertBy numeric x l).
Proof.
  induction l as [|y r IH]; simpl.
  - reflexivity.
  - destruct (numeric x y <=? 0); [reflexivity|].
    rewrite perm_swap. now apply perm_skip.
Qed.

Lemma sortBy_perm (l : list Z) : Permutation l (sortBy numeric l).
Proof.
  induction l as [|x l IH]; simpl; [constructor|].
  rewrite <- insertBy_perm. now apply perm_skip.
Qed.

Lemma insertBy_sorted (x : Z) (l : list Z) :
  StronglySorted Z.le l -> StronglySorted Z.le (insertBy numeric x l).
Proof.
  unfold numeric.
  induction 1 as [|y r Hs IH Hall]; simpl.
  - repeat constructor.
  - destruct (x - y <=? 0) eqn:E.
    + constructor; [now constructor|].
      apply Z.leb_le in E. constructor; [lia|].
      eapply Forall_impl; [|exact Hall]. simpl. intros; lia.
    + apply Z.leb_gt in E. constructor; [exact IH|].
      eapply Permutation_Forall; [apply (insertBy_perm x r)|].
      constructor; [lia | exact Hall].
Qed.

Lemma sortBy_sorted (l : list Z) : StronglySorted Z.le (sortBy numeric l).
Proof.
  induction l as [|x l IH]; simpl; [constructor | now apply insertBy_sorted].
Qed.

Lemma sorted_le_NoDup_lt (l : list Z) :
  StronglySorted Z.le l -> NoDup l -> StronglySorted Z.lt l.
Proof.
  induction 1 as [|y r Hs IH Hall]; intros Hnd; [constructor|].
  inversion Hnd as [|? ? Hnot Hnd']; subst.
  constructor; [now apply IH|].
  rewrite Forall_forall in *. intros z Hz.
  specialize (Hall z Hz).
  assert (y <> z) by (intros ->; contradiction). lia.
Qed.

Lemma uniqueSorted_sorted (arr : list Z) :
  StronglySorted Z.lt (uniqueSorted arr).
Proof.
  unfold uniqueSorted. apply sorted_le_NoDup_lt.
  - apply sortBy_sorted.
  - eapply Permutation_NoDup; [apply sortBy_perm | apply setFrom_NoDup].
Qed.

Lemma uniqueSorted_In (arr : list Z) (x : Z) :
  In x (uniqueSorted arr) <-> In x arr.
Proof.
  unfold uniqueSorted. split.
  - intros H. apply (Permutation_in _ (Permutation_sym (sortBy_perm _))) in H.
    apply setFrom_In in H. tauto.
  - intros H. apply (Permutation_in _ (sortBy_perm _)).
    apply setFrom_In. simpl. tauto.
Qed.

(** A strictly ascending list is determined by its members. *)
Lemma sorted_lt_ext (l1 l2 : list Z) :
  StronglySorted Z.lt l1 -> StronglySorted Z.lt l2 ->
  (forall x, In x l1 <-> In x l2) -> l1 = l2.
Proof.
  intros H1; revert l2.
  induction H1 as [|a r1 Hs1 IH Ha]; intros l2 H2 Hext.
  - destruct l2 as [|b r2]; [reflexivity|].
    exfalso. apply (Hext b). now left.
  - destruct H2 as [|b r2 Hs2 Hb].
    + exfalso. apply (Hext a). now left.
    + rewrite Forall_forall in Ha, Hb.
      assert (a = b).
      { destruct (proj1 (Hext a) (or_introl eq_refl)) as [Hab|Hab];
          [congruence|].
        destruct (proj2 (Hext b) (or_introl eq_refl)) as [Hba|Hba];
          [congruence|].
        specialize (Ha _ Hba). specialize (Hb _ Hab). lia. }
      subst b. f_equal. apply IH; [assumption|].
      intros x. split; intros Hx.
      * destruct (proj1 (Hext x) (or_intror Hx)) as [->|]; [|assumption].
        specialize (Ha _ Hx). lia.
      * destruct (proj2 (Hext x) (or_intror Hx)) as [->|]; [|assumption].
        specialize (Hb _ Hx). lia.
Qed.

Lemma uniqueSorted_ext (l1 l2 : list Z) :
  (forall x, In x l1 <-> In x l2) -> uniqueSorted l1 = uniqueSorted l2.
Proof.
  intros H. apply sorted_lt_ext; try apply uniqueSorted_sorted.
  intros x. rewrite !uniqueSorted_In. apply H.
Qed.

Lemma uniqueSorted_id (l : list Z) :
  StronglySorted Z.lt l -> uniqueSorted l = l.
Proof.
  intros H. apply sorted_lt_ext;
    [apply uniqueSorted_sorted | exact H | apply uniqueSorted_In].
Qed.

(** ** Facts about the generation loop *)

Section ForLoop.

Variable step : Z.
Hypothesis Hstep : 0 < step.

Lemma forLoop_eqn (rangeEnd v : Z) :
  forLoop step Hstep rangeEnd v =
  if v <=? rangeEnd then v :: forLoop step Hstep rangeEnd (v + step) else [].
Proof.
  rewrite forLoop_equation_1. simpl.
  destruct (Z_le_gt_dec v rangeEnd) as [H|H]; simpl.
  - apply Z.leb_le in H. now rewrite H.
  - apply Z.gt_lt, Z.leb_gt in H. now rewrite H.
Qed.

(** Induction along the iterations of the loop. *)
Lemma loop_induction (rangeEnd : Z) (P : Z -> Prop) :
  (forall v, rangeEnd < v -> P v) ->
  (forall v, v <= rangeEnd -> P (v + step) -> P v) ->
  forall v, P v.
Proof.
  intros Hexit Hiter v.
  remember (Z.to_nat (rangeEnd + 1 - v)) as n eqn:Hn.
  revert v Hn. induction n as [n IH] using lt_wf_ind. intros v Hn.
  destruct (Z_le_gt_dec v rangeEnd) as [Hle|Hgt].
  - apply Hiter; [assumption|].
    apply (IH (Z.to_nat (rangeEnd + 1 - (v + step)))); [lia | reflexivity].
  - apply Hexit. lia.
Qed.

Lemma forLoop_In (rangeEnd v x : Z) :
  In x (forLoop step Hstep rangeEnd v) <->
  x <= rangeEnd /\ exists k, 0 <= k /\ x = v + k * step.
Proof.
  revert v. apply (loop_induction rangeEnd); intros v Hv.
  - rewrite forLoop_eqn. apply Z.leb_gt in Hv as Hb. rewrite Hb. simpl.
    split; [tauto|]. intros (Hx & k & Hk & ->). nia.
  - intros IH. rewrite forLoop_eqn.
    apply Z.leb_le in Hv as Hb. rewrite Hb. simpl. rewrite IH. split.
    + intros [<-|(Hx & k & Hk & ->)].
      * split; [assumption|]. exists 0. lia.
      * split; [assumption|]. exists (k + 1). lia.
    + intros (Hx & k & Hk & ->).
      destruct (Z.eq_dec k 0) as [->|Hne]; [left; lia|].
      right. split; [assumption|]. exists (k - 1). lia.
Qed.

Lemma forLoop_sorted (rangeEnd v : Z) :
  StronglySorted Z.lt (forLoop step Hstep rangeEnd v).
Proof.
  revert v. apply (loop_induction rangeEnd); intros v Hv.
  - rewrite forLoop_eqn. apply Z.leb_gt in Hv. rewrite Hv. constructor.
  - intros IH. rewrite forLoop_eqn. apply Z.leb_le in Hv. rewrite Hv.
    constructor; [exact IH|].
    apply Forall_forall. intros x Hx.
    apply forLoop_In in Hx as (_ & k & Hk & ->). nia.
Qed.

Lemma forLoop_bounds (rangeEnd v x : Z) :
  In x (forLoop step Hstep rangeEnd v) -> v <= x <= rangeEnd.
Proof.
  intros Hx. apply forLoop_In in Hx as (Hle & k & Hk & ->). nia.
Qed.

Lemma forLoop_reversed (rangeEnd v : Z) :
  rangeEnd < v -> forLoop step Hstep rangeEnd v = [].
Proof.
  intros H. rewrite forLoop_eqn. apply Z.leb_gt in H. now rewrite H.
Qed.

End ForLoop.

(** ** Facts about the string primitives *)

Lemma allChars_app (P : ascii -> bool) (s1 s2 : string) :
  allChars P (s1 ++ s2) = allChars P s1 && allChars P s2.
Proof.
  induction s1 as [|c r IH]; simpl; [reflexivity|].
  now rewrite IH, andb_assoc.
Qed.

Lemma allChars_impl (P Q : ascii -> bool) (s : string) :
  (forall c, P c = true -> Q c = true) ->
  allChars P s = true -> allChars Q s = true.
Proof.
  intros HPQ. induction s as [|c r IH]; simpl; [reflexivity|].
  intros H. apply andb_prop in H as [Hc Hr].
  now rewrite (HPQ _ Hc), IH.
Qed.

Lemma app_empty_r (s : string) : s ++ "" = s.
Proof. induction s as [|c r IH]; simpl; congruence. Qed.

Lemma app_assoc_s (s1 s2 s3 : string) : (s1 ++ s2) ++ s3 = s1 ++ s2 ++ s3.
Proof. induction s1 as [|c r IH]; simpl; congruence. Qed.

Lemma trimEnd_blank (s : string) : isBlank s = true -> Js.trimEnd s = "".
Proof.
  unfold isBlank. induction s as [|c r IH]; simpl; [reflexivity|].
  intros H. apply andb_prop in H as [Hc Hr].
  now rewrite (IH Hr), Hc.
Qed.

Lemma trim_blank (s : string) : isBlank s = true -> Js.trim s = "".
Proof. intros H. unfold Js.trim. now rewrite trimEnd_blank. Qed.

Lemma trimEnd_noWs (s : string) :
  allChars (fun c => negb (Js.isWhiteSpace c)) s = true -> Js.trimEnd s = s.
Proof.
  induction s as [|c r IH]; simpl; [reflexivity|].
  intros H. apply andb_prop in H as [Hc Hr].
  rewrite (IH Hr). apply negb_true_iff in Hc. rewrite Hc.
  now destruct r.
Qed.

Lemma trim_noWs (s : string) :
  allChars (fun c => negb (Js.isWhiteSpace c)) s = true -> Js.trim s = s.
Proof.
  intros H. unfold Js.trim. rewrite (trimEnd_noWs _ H).
  destruct s as [|c r]; simpl in *; [reflexivity|].
  apply andb_prop in H as [Hc _]. apply negb_true_iff in Hc. now rewrite Hc.
Qed.

Lemma includes_allChars (P : ascii -> bool) (sep : ascii) (s : string) :
  P sep = false -> allChars P s = true -> Js.includes sep s = false.
Proof.
  intros Hsep. induction s as [|c r IH]; simpl; [reflexivity|].
  intros H. apply andb_prop in H as [Hc Hr]. rewrite (IH Hr), orb_false_r.
  destruct (Ascii.eqb_spec c sep); [congruence | reflexivity].
Qed.

Lemma includes_app (sep : ascii) (s1 s2 : string) :
  Js.includes sep (s1 ++ s2) = Js.includes sep s1 || Js.includes sep s2.
Proof.
  induction s1 as [|c r IH]; simpl; [reflexivity|].
  now rewrite IH, orb_assoc.
Qed.

Lemma split_noSep (sep : ascii) (s : string) :
  Js.includes sep s = false -> Js.split sep s = [s].
Proof.
  induction s as [|c r IH]; simpl; [reflexivity|].
  intros H. apply orb_false_elim in H as [Hc Hr].
  now rewrite Hc, (IH Hr).
Qed.

Lemma split_app (sep : ascii) (s1 s2 : string) :
  Js.includes sep s1 = false ->
  Js.split sep (s1 ++ String sep s2) = s1 :: Js.split sep s2.
Proof.
  induction s1 as [|c r IH]; simpl.
  - now rewrite Ascii.eqb_refl.
  - intros H. apply orb_false_elim in H as [Hc Hr].
    now rewrite Hc, (IH Hr).
Qed.

Lemma replaceLetters3_noLetters (f : string -> string) (s : string) :
  allChars (fun c => negb (Js.isLetter c)) s = true ->
  replaceLetters3 f s = s.
Proof.
  induction s as [|c1 tl IH]; [reflexivity|].
  intros H. simpl in H. apply andb_prop in H as [Hc Hr].
  apply negb_true_iff in Hc.
  specialize (IH Hr).
  cbn [replaceLetters3]. fold (replaceLetters3 f tl). rewrite Hc. simpl.
  destruct tl as [|c2 [|c3 rest]]; now rewrite ?IH.
Qed.

Lemma replaceNames_noLetters (token : string) (fieldIndex : nat) :
  allChars (fun c => negb (Js.isLetter c)) token = true ->
  replaceNames token fieldIndex = token.
Proof.
  intros H. unfold replaceNames.
  destruct (fieldIndex =? 3)%nat; [now apply replaceLetters3_noLetters|].
  destruct (fieldIndex =? 4)%nat; [now apply replaceLetters3_noLetters|].
  reflexivity.
Qed.

(** ** Reading back a rendered integer *)

(** One digit of a rendering goes through [readDigits]. *)
Ltac read_digit IH :=
  match goal with
  | |- context [Js.isDigit ?c] =>
      let b := eval vm_compute in (Js.isDigit c) in
      change (Js.isDigit c) with b
  end;
  match goal with
  | |- context [Js.digitValue ?c] =>
      let v := eval vm_compute in (Js.digitValue c) in
      change (Js.digitValue c) with v
  end;
  cbv iota; rewrite <- IH; repeat f_equal; try lia.

Lemma readDigits_uint_pos (d : Decimal.uint) (g : string) (p : positive) :
  noLeadingDigit g = true ->
  Js.readDigits (NilEmpty.string_of_uint d ++ g) (Some (Zpos p)) =
  Some (Zpos (Pos.of_uint_acc d p)).
Proof.
  intros Hg. revert p.
  induction d as [|d IH|d IH|d IH|d IH|d IH|d IH|d IH|d IH|d IH|d IH];
    intros p;
    cbn [NilEmpty.string_of_uint append Js.readDigits Pos.of_uint_acc];
    try read_digit IH.
  destruct g as [|c r]; simpl in *; [reflexivity|].
  apply negb_true_iff in Hg. now rewrite Hg.
Qed.

Lemma readDigits_uint_zero (d : Decimal.uint) (g : string) :
  noLeadingDigit g = true ->
  Js.readDigits (NilEmpty.string_of_uint d ++ g) (Some 0) =
  Some (Z.of_N (Pos.of_uint d)).
Proof.
  intros Hg.
  induction d as [|d IH|d IH|d IH|d IH|d IH|d IH|d IH|d IH|d IH|d IH];
    cbn [NilEmpty.string_of_uint append Js.readDigits Pos.of_uint Z.of_N].
  1:{ destruct g as [|c r]; simpl in *; [reflexivity|].
      apply negb_true_iff in Hg. now rewrite Hg. }
  1:{ exact IH. }
  all: pose proof (fun p => readDigits_uint_pos d g p Hg) as IHp; read_digit IHp.
Qed.

Lemma readDigits_uint (d : Decimal.uint) (g : string) :
  d <> Decimal.Nil -> noLeadingDigit g = true ->
  Js.readDigits (NilEmpty.string_of_uint d ++ g) None =
  Some (Z.of_N (Pos.of_uint d)).
Proof.
  intros Hd Hg.
  destruct d as [|d|d|d|d|d|d|d|d|d|d]; [contradiction| ..];
    cbn [NilEmpty.string_of_uint append Js.readDigits Pos.of_uint Z.of_N].
  1:{ exact (readDigits_uint_zero d g Hg). }
  all: pose proof (fun p => readDigits_uint_pos d g p Hg) as IHp; read_digit IHp.
Qed.

Lemma string_of_uint_digits (d : Decimal.uint) :
  allChars Js.isDigit (NilEmpty.string_of_uint d) = true.
Proof.
  induction d; simpl; try reflexivity; exact IHd.
Qed.

Lemma string_of_uint_nonempty (d : Decimal.uint) :
  d <> Decimal.Nil ->
  exists c r, NilEmpty.string_of_uint d = String c r /\ Js.isDigit c = true.
Proof.
  intros Hd. destruct d; [contradiction| ..]; simpl; eauto.
Qed.

Lemma isDigit_not_sign (c : ascii) :
  Js.isDigit c = true ->
  Ascii.eqb c "-" = false /\ Ascii.eqb c "+" = false
  /\ Js.isWhiteSpace c = false /\ Js.isLetter c = false.
Proof.
  intros H.
  destruct c as [[] [] [] [] [] [] [] []]; try discriminate H; repeat split.
Qed.

Lemma parseInt_digit_head (c : ascii) (r : string) :
  Js.isDigit c = true ->
  Js.parseInt (String c r) = Js.readDigits (String c r) None.
Proof.
  intros H. destruct (isDigit_not_sign c H) as (Hm & Hp & Hw & _).
  unfold Js.parseInt. cbn [Js.trimStart]. now rewrite Hw, Hm, Hp.
Qed.

(** The rendering of a natural number: digits only, at least one. *)
Lemma String_nonneg (n : Z) :
  0 <= n ->
  allChars Js.isDigit (Js.String_ n) = true /\
  exists c r, Js.String_ n = String c r /\ Js.isDigit c = true.
Proof.
  intros Hn. unfold Js.String_.
  destruct n as [|p|p]; [| |lia]; simpl.
  - split; [reflexivity | eauto].
  - split; [apply string_of_uint_digits|].
    apply string_of_uint_nonempty, DecimalPos.Unsigned.to_uint_nonnil.
Qed.

(** [parseInt] reads back what [String] renders, whatever follows it, as long
    as this is not one more digit. *)
Lemma parseInt_String (n : Z) (g : string) :
  noLeadingDigit g = true -> Js.parseInt (Js.String_ n ++ g) = Some n.
Proof.
  intros Hg. unfold Js.String_.
  destruct n as [|p|p]; simpl Z.to_int; cbn [NilEmpty.string_of_int].
  - destruct g as [|c r]; [reflexivity|].
    simpl in Hg. apply negb_true_iff in Hg.
    unfold Js.parseInt. simpl. now rewrite Hg.
  - pose proof (DecimalPos.Unsigned.to_uint_nonnil p) as Hnil.
    destruct (string_of_uint_nonempty _ Hnil) as (c & r & E & Hc).
    assert (Hgoal : Js.readDigits (NilEmpty.string_of_uint (Pos.to_uint p) ++ g) None
                    = Some (Zpos p)).
    { rewrite (readDigits_uint _ g Hnil Hg).
      now rewrite DecimalPos.Unsigned.of_to. }
    rewrite E in *. simpl append in *. now rewrite parseInt_digit_head.
  - pose proof (DecimalPos.Unsigned.to_uint_nonnil p) as Hnil.
    unfold Js.parseInt. cbn [append Js.trimStart].
    change (Js.isWhiteSpace "-") with false. cbv iota.
    change (Ascii.eqb "-" "-") with true. cbv iota.
    rewrite (readDigits_uint _ g Hnil Hg).
    now rewrite DecimalPos.Unsigned.of_to.
Qed.

Lemma parseInt_String_exact (n : Z) : Js.parseInt (Js.String_ n) = Some n.
Proof.
  rewrite <- (app_empty_r (Js.String_ n)). now apply parseInt_String.
Qed.

(** ** Fields of a single token *)

Lemma fieldParts_single (s : string) :
  s <> "" -> Js.trim s = s -> Js.includes "," s = false ->
  fieldParts s = [s].
Proof.
  intros Hne Hws Hc. unfold fieldParts.
  rewrite (split_noSep _ _ Hc). simpl. rewrite Hws.
  destruct s; [contradiction | reflexivity].
Qed.

Lemma parseField_single (s : string) (defIndex : nat) (def : FieldDef) :
  nth_error FIELD_DEFS defIndex = Some def ->
  s <> "" -> Js.trim s = s -> Js.includes "," s = false ->
  parseField s defIndex =
  (out <- parseToken s (min def) (max def) defIndex ;; Ok (uniqueSorted out)).
Proof.
  intros Hdef Hne Hws Hc. unfold parseField.
  rewrite Hdef, (fieldParts_single s Hne Hws Hc).
  destruct s as [|c r]; [contradiction|]. cbn [String.eqb concatTokens].
  destruct (parseToken (String c r) (min def) (max def) defIndex);
    reflexivity.
Qed.

Lemma interval_In (lo hi x : Z) : In x (interval lo hi) <-> lo <= x <= hi.
Proof.
  unfold interval. rewrite in_map_iff. split.
  - intros (k & <- & Hk). apply in_seq in Hk. lia.
  - intros H. exists (Z.to_nat (x - lo)). split; [lia|].
    apply in_seq. lia.
Qed.

(** ** The stages of parseToken *)

Lemma parseStep_present (token stepPart : string) (n : Z) :
  stepPart <> "" -> Js.parseInt stepPart = Some n -> 0 < n ->
  exists H, parseStep token (Some stepPart) = Ok (exist _ n H).
Proof.
  intros Hne Hp Hn. unfold parseStep.
  destruct stepPart as [|c r]; [contradiction|]. rewrite Hp.
  destruct (Z_le_gt_dec n 0) as [Hle|Hgt]; [lia|]. eauto.
Qed.

Lemma parseStep_absent (token : string) :
  exists H, parseStep token None = Ok (exist _ 1 H).
Proof. unfold parseStep. simpl. eauto. Qed.

Lemma parseStep_invalid (token stepPart : string) :
  stepPart <> "" ->
  (forall n, Js.parseInt stepPart = Some n -> n <= 0) ->
  parseStep token (Some stepPart) = Err (InvalidStep token).
Proof.
  intros Hne Hp. unfold parseStep.
  destruct stepPart as [|c r]; [contradiction|].
  destruct (Js.parseInt (String c r)) as [n|]; [|reflexivity].
  specialize (Hp n eq_refl).
  destruct (Z_le_gt_dec n 0); [reflexivity | lia].
Qed.

Lemma outOfBounds_true (min max rangeStart rangeEnd : Z) :
  outOfBounds min max rangeStart rangeEnd = true <->
  rangeStart < min \/ rangeStart > max \/ rangeEnd < min \/ rangeEnd > max.
Proof.
  unfold outOfBounds. rewrite !orb_true_iff, !Z.ltb_lt, !Z.gtb_gt. tauto.
Qed.

Lemma outOfBounds_false (min max rangeStart rangeEnd : Z) :
  outOfBounds min max rangeStart rangeEnd = false <->
  min <= rangeStart <= max /\ min <= rangeEnd <= max.
Proof.
  rewrite <- Bool.not_true_iff_false, outOfBounds_true. lia.
Qed.

(** X7.  A step part that is there and that [parseInt] does not read as a
    positive integer - no number, zero, a negative number - is rejected with
    [InvalidStep], whatever the range part. *)
Lemma invalid_step_rejected
    (token : string) (min max : Z) (fieldIndex : nat) (stepPart : string) :
  let t := replaceNames (Js.trim token) fieldIndex in
  nth_error (Js.split "/" t) 1 = Some stepPart ->
  stepPart <> "" ->
  (forall n, Js.parseInt stepPart = Some n -> n <= 0) ->
  parseToken token min max fieldIndex = Err (InvalidStep t).
Proof.
  intros t Hsp Hne Hp. unfold parseToken. fold t.
  unfold splitStep. rewrite Hsp.
  now rewrite (parseStep_invalid t stepPart Hne Hp).
Qed.

Lemma isNumeric_facts (c : ascii) :
  isNumeric c = true ->
  Js.isWhiteSpace c = false /\ Js.isLetter c = false /\ Ascii.eqb c "," = false.
Proof.
  intros H.
  destruct c as [[] [] [] [] [] [] [] []]; try discriminate H; repeat split.
Qed.

Lemma numeric_token (s : string) :
  allChars isNumeric s = true ->
  Js.trim s = s /\ (forall i, replaceNames s i = s) /\ Js.includes "," s = false.
Proof.
  intros H. repeat split.
  - apply trim_noWs. revert H. apply allChars_impl.
    intros c Hc. now destruct (isNumeric_facts c Hc) as (-> & _).
  - intros i. apply replaceNames_noLetters. revert H. apply allChars_impl.
    intros c Hc. now destruct (isNumeric_facts c Hc) as (_ & -> & _).
  - apply (includes_allChars isNumeric); [reflexivity | exact H].
Qed.

Lemma digits_numeric (s : string) :
  allChars Js.isDigit s = true -> allChars isNumeric s = true.
Proof.
  apply allChars_impl. intros c Hc. unfold isNumeric. now rewrite Hc.
Qed.

Lemma digits_no_sep (sep : ascii) (s : string) :
  Js.isDigit sep = false ->
  allChars Js.isDigit s = true -> Js.includes sep s = false.
Proof. intros. now apply (includes_allChars Js.isDigit). Qed.

Lemma foldSeven_id (fieldIndex : nat) (a b : Z) :
  (fieldIndex = 4%nat -> a <> 7 /\ b <> 7) ->
  foldSeven fieldIndex (a, b) = (a, b).
Proof.
  intros H. unfold foldSeven.
  destruct (Nat.eqb_spec fieldIndex 4) as [E|E]; [|reflexivity].
  destruct (H E) as [Ha Hb].
  apply Z.eqb_neq in Ha, Hb. now rewrite Ha, Hb.
Qed.

(** The token of one number [n]. *)
Lemma parseToken_value (n min max : Z) (fieldIndex : nat) :
  0 <= n -> (fieldIndex = 4%nat -> n <> 7) ->
  parseToken (Js.String_ n) min max fieldIndex =
  if outOfBounds min max n n
  then Err (OutOfBounds (Js.String_ n) min max)
  else Ok [n].
Proof.
  intros Hn H7.
  destruct (String_nonneg n Hn) as (Hdig & c & r & E & Hc).
  destruct (numeric_token _ (digits_numeric _ Hdig)) as (Htrim & Hnames & _).
  unfold parseToken. rewrite Htrim, Hnames.
  unfold splitStep.
  rewrite (split_noSep "/" _ (digits_no_sep "/" _ eq_refl Hdig)).
  cbn [nth nth_error].
  destruct (parseStep_absent (Js.String_ n)) as (H1 & ->). cbn [bind].
  unfold parseRange.
  assert (Hstar : String.eqb (Js.String_ n) "*" = false).
  { rewrite E. cbn [String.eqb].
    destruct (Ascii.eqb_spec c "*") as [->|]; [discriminate Hc | reflexivity]. }
  rewrite Hstar, (digits_no_sep "-" _ eq_refl Hdig), parseInt_String_exact.
  cbn [bind]. rewrite foldSeven_id by (intros E4; split; auto).
  destruct (outOfBounds min max n n) eqn:Hb; [reflexivity|].
  cbn [proj1_sig proj2_sig].
  rewrite forLoop_eqn, Z.leb_refl, forLoop_reversed by lia. reflexivity.
Qed.

(** The token [a-b/c]. *)
Lemma parseToken_range_step (a b c min max : Z) (fieldIndex : nat) :
  0 <= a -> 0 <= b -> 0 < c ->
  (fieldIndex = 4%nat -> a <> 7 /\ b <> 7) ->
  let token := Js.String_ a ++ "-" ++ Js.String_ b ++ "/" ++ Js.String_ c in
  exists Hc,
    parseToken token min max fieldIndex =
    if outOfBounds min max a b
    then Err (OutOfBounds token min max)
    else Ok (forLoop c Hc b a).
Proof.
  intros Ha Hb Hc H7 token.
  destruct (String_nonneg a Ha) as (Hda & ca & ra & Ea & Hca).
  destruct (String_nonneg b Hb) as (Hdb & cb & rb & Eb & Hcb).
  destruct (String_nonneg c (Z.lt_le_incl _ _ Hc)) as (Hdc & cc & rc & Ec & Hcc).
  assert (Hnum : allChars isNumeric token = true).
  { unfold token. rewrite !allChars_app.
    rewrite (digits_numeric _ Hda), (digits_numeric _ Hdb),
      (digits_numeric _ Hdc). reflexivity. }
  destruct (numeric_token _ Hnum) as (Htrim & Hnames & _).
  unfold parseToken. rewrite Htrim, Hnames.
  set (rangePart := Js.String_ a ++ "-" ++ Js.String_ b).
  assert (Hsplit : splitStep token = (rangePart, Some (Js.String_ c))).
  { unfold splitStep, token.
    change (Js.String_ a ++ "-" ++ Js.String_ b ++ "/" ++ Js.String_ c)
      with (Js.String_ a ++ String "-" (Js.String_ b ++ String "/" (Js.String_ c))).
    replace (Js.String_ a ++ String "-" (Js.String_ b ++ String "/" (Js.String_ c)))
      with (rangePart ++ String "/" (Js.String_ c))
      by (unfold rangePart; now rewrite app_assoc_s).
    rewrite split_app.
    - rewrite (split_noSep "/" _ (digits_no_sep "/" _ eq_refl Hdc)).
      reflexivity.
    - unfold rangePart. rewrite includes_app.
      rewrite (digits_no_sep "/" _ eq_refl Hda). cbn.
      apply (digits_no_sep "/" _ eq_refl Hdb). }
  rewrite Hsplit.
  destruct (parseStep_present token (Js.String_ c) c) as (Hc' & ->);
    [rewrite Ec; discriminate | apply parseInt_String_exact | exact Hc |].
  exists Hc'. cbn [bind].
  unfold parseRange.
  assert (Hstar : String.eqb rangePart "*" = false).
  { unfold rangePart. rewrite Ea. cbn [append String.eqb].
    destruct (Ascii.eqb_spec ca "*") as [->|]; [discriminate Hca | reflexivity]. }
  assert (Hinc : Js.includes "-" rangePart = true).
  { unfold rangePart. rewrite includes_app. cbn. apply orb_true_r. }
  rewrite Hstar, Hinc.
  assert (Hab : Js.split "-" rangePart = [Js.String_ a; Js.String_ b]).
  { unfold rangePart.
    change (Js.String_ a ++ "-" ++ Js.String_ b)
      with (Js.String_ a ++ String "-" (Js.String_ b)).
    rewrite split_app by (apply (digits_no_sep "-" _ eq_refl Hda)).
    now rewrite (split_noSep "-" _ (digits_no_sep "-" _ eq_refl Hdb)). }
  rewrite Hab. cbn [map nth]. rewrite !parseInt_String_exact. cbn [bind].
  rewrite (foldSeven_id _ _ _ H7).
  reflexivity.
Qed.

Lemma FIELD_DEFS_domains (defIndex : nat) (def : FieldDef) :
  nth_error FIELD_DEFS defIndex = Some def ->
  0 <= min def /\ min def <= max def /\ (defIndex = 4%nat -> max def = 6).
Proof.
  intros H.
  do 5 (destruct defIndex as [|defIndex];
        [injection H as <-; simpl; repeat split; (lia || discriminate)|]).
  destruct defIndex; discriminate H.
Qed.

(** ** What a field is made of *)

Lemma parseToken_bounds (token : string) (min max : Z) (fieldIndex : nat)
    (out : list Z) :
  parseToken token min max fieldIndex = Ok out ->
  Forall (fun x => min <= x <= max) out.
Proof.
  unfold parseToken.
  destruct (splitStep _) as [rangePart stepPart].
  destruct (parseStep _ stepPart) as [[step Hstep]|e]; [|discriminate].
  cbn [bind]. destruct (parseRange _ rangePart min max) as [bounds|e];
    [|discriminate].
  cbn [bind]. destruct (foldSeven fieldIndex bounds) as [rangeStart rangeEnd].
  destruct (outOfBounds min max rangeStart rangeEnd) eqn:Hb; [discriminate|].
  apply outOfBounds_false in Hb. intros [= <-].
  apply Forall_forall. intros x Hx.
  apply forLoop_bounds in Hx. cbn [proj1_sig] in Hx. lia.
Qed.

Lemma concatTokens_In (def : FieldDef) (defIndex : nat) (parts : list string)
    (values out : list Z) :
  concatTokens (Some def) defIndex parts values = Ok out ->
  forall x, In x out <->
            In x values \/
            exists p vs, In p parts /\
                         parseToken p (min def) (max def) defIndex = Ok vs /\
                         In x vs.
Proof.
  revert values. induction parts as [|p rest IH]; intros values; simpl.
  - intros [= <-] x. split; [tauto|]. intros [H|(p & vs & [] & _)]. exact H.
  - destruct (parseToken p (min def) (max def) defIndex) as [vs|e] eqn:Ep;
      [|discriminate].
    cbn [bind]. intros H x. rewrite (IH _ H x), in_app_iff. split.
    + intros [[Hx|Hx]|(q & ws & Hq & Eq & Hx)].
      * now left.
      * right. exists p, vs. tauto.
      * right. exists q, ws. tauto.
    + intros [Hx|(q & ws & [<-|Hq] & Eq & Hx)].
      * tauto.
      * rewrite Ep in Eq. injection Eq as <-. tauto.
      * right. exists q, ws. tauto.
Qed.

Lemma concatTokens_undefined (defIndex : nat) (parts : list string)
    (values out : list Z) :
  concatTokens None defIndex parts values = Ok out ->
  parts = [] /\ out = values.
Proof. destruct parts; simpl; [intros [= <-]; auto | discriminate]. Qed.

Lemma fieldParts_In (s : string) (p : string) :
  In p (fieldParts s) <->
  p <> "" /\ exists t, In t (Js.split "," s) /\ p = Js.trim t.
Proof.
  unfold fieldParts. rewrite filter_In, in_map_iff. split.
  - intros ((t & <- & Ht) & Hlen). split; [|eauto].
    intros E. rewrite E in Hlen. discriminate.
  - intros (Hne & t & Ht & ->). split; [eauto|].
    destruct (Js.trim t); [contradiction | reflexivity].
Qed.

Lemma sorted_lt_NoDup (l : list Z) : StronglySorted Z.lt l -> NoDup l.
Proof.
  induction 1 as [|a r Hs IH Ha]; constructor; [|exact IH].
  intros Hin. rewrite Forall_forall in Ha. specialize (Ha _ Hin). lia.
Qed.

(** ** The scan of replaceNames *)

Lemma replaceLetters3_group_head (f : string -> string) (w rest : string) :
  isGroup w = true ->
  replaceLetters3 f (w ++ rest) = f w ++ replaceLetters3 f rest.
Proof.
  unfold isGroup. intros H. apply andb_prop in H as [Hlen Hlet].
  destruct w as [|c1 [|c2 [|c3 [|c4 w]]]]; try discriminate Hlen.
  simpl in Hlet. cbn [append replaceLetters3].
  destruct (Js.isLetter c1), (Js.isLetter c2), (Js.isLetter c3);
    try discriminate Hlet.
  reflexivity.
Qed.

Lemma replaceLetters3_cons (f : string -> string) (c1 : ascii) (tl : string) :
  Js.isLetter c1 = false ->
  replaceLetters3 f (String c1 tl) = String c1 (replaceLetters3 f tl).
Proof.
  intros H. cbn [replaceLetters3]. fold (replaceLetters3 f tl). rewrite H.
  destruct tl as [|c2 [|c3 rest]]; reflexivity.
Qed.

Lemma replaceLetters3_cons3 (f : string -> string) (c1 c2 c3 : ascii)
    (rest : string) :
  replaceLetters3 f (String c1 (String c2 (String c3 rest))) =
  if Js.isLetter c1 && Js.isLetter c2 && Js.isLetter c3
  then f (String c1 (String c2 (String c3 ""))) ++ replaceLetters3 f rest
  else String c1 (replaceLetters3 f (String c2 (String c3 rest))).
Proof. reflexivity. Qed.

Lemma replaceLetters3_second (f : string -> string) (c1 c2 : ascii)
    (tl : string) :
  Js.isLetter c2 = false ->
  replaceLetters3 f (String c1 (String c2 tl)) =
  String c1 (replaceLetters3 f (String c2 tl)).
Proof.
  intros H. destruct tl as [|c3 rest]; [reflexivity|].
  now rewrite replaceLetters3_cons3, H, andb_false_r.
Qed.

Lemma replaceLetters3_third (f : string -> string) (c1 c2 c3 : ascii)
    (tl : string) :
  Js.isLetter c3 = false ->
  replaceLetters3 f (String c1 (String c2 (String c3 tl))) =
  String c1 (replaceLetters3 f (String c2 (String c3 tl))).
Proof.
  intros H. now rewrite replaceLetters3_cons3, H, andb_false_r.
Qed.

Lemma replaceLetters3_other (f : string -> string) (x : ascii)
    (pre rest : string) :
  Js.isLetter x = false ->
  replaceLetters3 f (pre ++ String x rest) =
  replaceLetters3 f (pre ++ String x "") ++ replaceLetters3 f rest.
Proof.
  intros Hx.
  remember (String.length pre) as n eqn:Hn. revert pre Hn.
  induction n as [n IH] using lt_wf_ind. intros pre Hn.
  destruct pre as [|c1 [|c2 [|c3 pre]]]; cbn [append].
  - rewrite !(replaceLetters3_cons f x) by exact Hx. reflexivity.
  - rewrite !(replaceLetters3_second f c1 x) by exact Hx.
    rewrite !(replaceLetters3_cons f x) by exact Hx. reflexivity.
  - rewrite !(replaceLetters3_third f c1 c2 x) by exact Hx.
    cbn [append]. f_equal.
    apply (IH 1%nat (ltac:(subst n; simpl; lia)) (String c2 "") eq_refl).
  - rewrite !replaceLetters3_cons3.
    destruct (Js.isLetter c1 && Js.isLetter c2 && Js.isLetter c3).
    + rewrite (IH (String.length pre) (ltac:(subst n; simpl; lia)) pre eq_refl).
      now rewrite app_assoc_s.
    + cbn [append]. f_equal.
      apply (IH (String.length (String c2 (String c3 pre)))
                (ltac:(subst n; simpl; lia))
                (String c2 (String c3 pre)) eq_refl).
Qed.

(** A group that starts at a boundary is one match of the scan. *)
Lemma replaceLetters3_group (f : string -> string) (pre : string) :
  atBoundary pre ->
  forall w rest, isGroup w = true ->
  replaceLetters3 f (pre ++ w ++ rest) =
  replaceLetters3 f pre ++ f w ++ replaceLetters3 f rest.
Proof.
  induction 1 as [|pre c Hc|pre w0 Hpre IH Hw0]; intros w rest Hw.
  - cbn [append replaceLetters3]. now apply replaceLetters3_group_head.
  - rewrite app_assoc_s. cbn [append].
    rewrite (replaceLetters3_other f c pre (w ++ rest) Hc).
    now rewrite (replaceLetters3_group_head f w rest Hw).
  - rewrite app_assoc_s.
    rewrite (IH w0 (w ++ rest) Hw0).
    rewrite (replaceLetters3_group_head f w rest Hw).
    rewrite <- (app_empty_r w0) at 2.
    rewrite (IH w0 "" Hw0). cbn [replaceLetters3].
    now rewrite app_empty_r, app_assoc_s.
Qed.

(** ** The leading integer of parseInt *)

Lemma trimStart_blank (w s : string) :
  isBlank w = true -> Js.trimStart (w ++ s) = Js.trimStart s.
Proof.
  unfold isBlank. induction w as [|c r IH]; simpl; [reflexivity|].
  intros H. apply andb_prop in H as [Hc Hr]. now rewrite Hc, IH.
Qed.





Lemma split_nonempty (sep : ascii) (s : string) :
  exists h t, Js.split sep s = h :: t.
Proof.
  induction s as [|c r (h & t & E)]; simpl; [eauto|].
  destruct (Ascii.eqb c sep); [eauto|]. rewrite E. eauto.
Qed.



(** ** Tokens of numbers followed by other characters *)

Lemma noNames_app (fieldIndex : nat) (s1 s2 : string) :
  noNames fieldIndex (s1 ++ s2) = noNames fieldIndex s1 && noNames fieldIndex s2.
Proof.
  unfold noNames. destruct ((fieldIndex =? 3) || (fieldIndex =? 4))%nat;
    [apply allChars_app | reflexivity].
Qed.

Lemma isClean_app (fieldIndex : nat) (s1 s2 : string) :
  isClean fieldIndex (s1 ++ s2) = isClean fieldIndex s1 && isClean fieldIndex s2.
Proof.
  unfold isClean. rewrite allChars_app, noNames_app.
  destruct (allChars isPlain s1), (allChars isPlain s2),
    (noNames fieldIndex s1), (noNames fieldIndex s2); reflexivity.
Qed.

Lemma isPlain_facts (c : ascii) :
  isPlain c = true -> Js.isWhiteSpace c = false /\ Ascii.eqb c "," = false.
Proof.
  unfold isPlain. intros H. apply andb_prop in H as [H1 H2].
  now apply negb_true_iff in H1, H2.
Qed.

Lemma clean_token (fieldIndex : nat) (t : string) :
  isClean fieldIndex t = true ->
  Js.trim t = t /\ replaceNames t fieldIndex = t /\ Js.includes "," t = false.
Proof.
  unfold isClean. intros H. apply andb_prop in H as [Hp Hn].
  split; [|split].
  - apply trim_noWs. revert Hp. apply allChars_impl.
    intros c Hc. now destruct (isPlain_facts c Hc) as (-> & _).
  - unfold noNames in Hn. unfold replaceNames.
    destruct (Nat.eqb_spec fieldIndex 3) as [->|H3];
      [now apply replaceLetters3_noLetters|].
    destruct (Nat.eqb_spec fieldIndex 4) as [->|H4];
      [now apply replaceLetters3_noLetters | reflexivity].
  - apply (includes_allChars isPlain); [reflexivity | exact Hp].
Qed.

Lemma digits_clean (fieldIndex : nat) (s : string) :
  allChars Js.isDigit s = true -> isClean fieldIndex s = true.
Proof.
  intros H. unfold isClean. apply andb_true_intro. split.
  - revert H. apply allChars_impl. intros c Hc.
    destruct (isDigit_not_sign c Hc) as (_ & _ & Hw & _).
    unfold isPlain. rewrite Hw.
    destruct (Ascii.eqb_spec c ",") as [->|]; [discriminate Hc | reflexivity].
  - unfold noNames. destruct ((fieldIndex =? 3) || (fieldIndex =? 4))%nat;
      [|reflexivity].
    revert H. apply allChars_impl. intros c Hc.
    now destruct (isDigit_not_sign c Hc) as (_ & _ & _ & ->).
Qed.

Lemma garbage_facts (fieldIndex : nat) (g : string) :
  isGarbage fieldIndex g = true ->
  noLeadingDigit g = true /\ isClean fieldIndex g = true /\
  Js.includes "/" g = false /\ Js.includes "-" g = false.
Proof.
  unfold isGarbage. intros H.
  apply andb_prop in H as [H H4]. apply andb_prop in H as [H H3].
  apply andb_prop in H as [H1 H2].
  apply negb_true_iff in H3, H4. auto.
Qed.

(** A number and what follows it, as one part of a token. *)
Lemma number_part (fieldIndex : nat) (n : Z) (g : string) :
  0 <= n -> isGarbage fieldIndex g = true ->
  isClean fieldIndex (Js.String_ n ++ g) = true /\
  Js.includes "/" (Js.String_ n ++ g) = false /\
  Js.includes "-" (Js.String_ n ++ g) = false /\
  Js.parseInt (Js.String_ n ++ g) = Some n /\
  exists c r, Js.String_ n ++ g = String c r /\ Js.isDigit c = true.
Proof.
  intros Hn Hg.
  destruct (garbage_facts _ _ Hg) as (Hlead & Hclean & Hs & Hm).
  destruct (String_nonneg n Hn) as (Hdig & c & r & E & Hc).
  repeat split.
  - now rewrite isClean_app, (digits_clean _ _ Hdig), Hclean.
  - now rewrite includes_app, (digits_no_sep "/" _ eq_refl Hdig), Hs.
  - now rewrite includes_app, (digits_no_sep "-" _ eq_refl Hdig), Hm.
  - now apply parseInt_String.
  - rewrite E. simpl. eauto.
Qed.

Lemma splitStep_absent (rangePart : string) :
  Js.includes "/" rangePart = false ->
  splitStep rangePart = (rangePart, None).
Proof. intros H. unfold splitStep. now rewrite (split_noSep _ _ H). Qed.

Lemma splitStep_present (rangePart stepPart : string) :
  Js.includes "/" rangePart = false ->
  Js.includes "/" stepPart = false ->
  splitStep (rangePart ++ "/" ++ stepPart) = (rangePart, Some stepPart).
Proof.
  intros Hr Hs. unfold splitStep.
  change (rangePart ++ "/" ++ stepPart)
    with (rangePart ++ String "/" stepPart).
  now rewrite (split_app _ _ _ Hr), (split_noSep _ _ Hs).
Qed.

(** The stages of [parseToken] on a token that trimming and name resolution
    leave as it is. *)
Lemma parseToken_clean (fieldIndex : nat) (t rangePart : string)
    (stepPart : option string) (min max : Z) :
  isClean fieldIndex t = true ->
  splitStep t = (rangePart, stepPart) ->
  parseToken t min max fieldIndex =
  (step <- parseStep t stepPart ;;
   bounds <- parseRange t rangePart min max ;;
   if outOfBounds min max (fst (foldSeven fieldIndex bounds))
                          (snd (foldSeven fieldIndex bounds))
   then Err (OutOfBounds t min max)
   else Ok (forLoop (proj1_sig step) (proj2_sig step)
                    (snd (foldSeven fieldIndex bounds))
                    (fst (foldSeven fieldIndex bounds)))).
Proof.
  intros Hc Hs. destruct (clean_token _ _ Hc) as (Htrim & Hnames & _).
  unfold parseToken. rewrite Htrim, Hnames, Hs.
  destruct (parseStep t stepPart) as [step|e]; [|reflexivity]. cbn [bind].
  destruct (parseRange t rangePart min max) as [bounds|e]; [|reflexivity].
  cbn [bind]. now destruct (foldSeven fieldIndex bounds).
Qed.

Lemma parseRange_value (token : string) (n : Z) (g : string) (min max : Z)
    (fieldIndex : nat) :
  0 <= n -> isGarbage fieldIndex g = true ->
  parseRange token (Js.String_ n ++ g) min max = Ok (n, n).
Proof.
  intros Hn Hg.
  destruct (number_part fieldIndex n g Hn Hg)
    as (_ & _ & Hm & Hp & c & r & E & Hc).
  unfold parseRange. rewrite Hm, Hp.
  rewrite E. cbn [String.eqb].
  destruct (Ascii.eqb_spec c "*") as [->|]; [discriminate Hc | reflexivity].
Qed.

Lemma parseRange_bounds (token : string) (a b : Z) (ga gb : string)
    (min max : Z) (fieldIndex : nat) :
  0 <= a -> 0 <= b ->
  isGarbage fieldIndex ga = true -> isGarbage fieldIndex gb = true ->
  parseRange token ((Js.String_ a ++ ga) ++ "-" ++ Js.String_ b ++ gb) min max
  = Ok (a, b).
Proof.
  intros Ha Hb Hga Hgb.
  destruct (number_part fieldIndex a ga Ha Hga)
    as (_ & _ & Hma & Hpa & c & r & E & Hc).
  destruct (number_part fieldIndex b gb Hb Hgb) as (_ & _ & Hmb & Hpb & _).
  unfold parseRange.
  assert (Hstar : String.eqb ((Js.String_ a ++ ga) ++ "-" ++ Js.String_ b ++ gb)
                             "*" = false).
  { rewrite E. cbn [append String.eqb].
    destruct (Ascii.eqb_spec c "*") as [->|]; [discriminate Hc | reflexivity]. }
  rewrite Hstar.
  change ((Js.String_ a ++ ga) ++ "-" ++ Js.String_ b ++ gb)
    with ((Js.String_ a ++ ga) ++ String "-" (Js.String_ b ++ gb)).
  rewrite includes_app. cbn [Js.includes Ascii.eqb Bool.eqb].
  rewrite orb_true_r, (split_app _ _ _ Hma), (split_noSep _ _ Hmb).
  cbn [map nth]. now rewrite Hpa, Hpb.
Qed.

Lemma clean_sep (fieldIndex : nat) (sep : string) :
  sep = "/" \/ sep = "-" \/ sep = "*/" -> isClean fieldIndex sep = true.
Proof.
  intros [->|[->| ->]]; unfold isClean, noNames;
    destruct ((fieldIndex =? 3) || (fieldIndex =? 4))%nat; reflexivity.
Qed.

Lemma parseToken_no_step (fieldIndex : nat) (rangePart : string)
    (bounds : Z * Z) (min max : Z) :
  isClean fieldIndex rangePart = true ->
  Js.includes "/" rangePart = false ->
  parseRange rangePart rangePart min max = Ok bounds ->
  exists H1,
    parseToken rangePart min max fieldIndex =
    if outOfBounds min max (fst (foldSeven fieldIndex bounds))
                           (snd (foldSeven fieldIndex bounds))
    then Err (OutOfBounds rangePart min max)
    else Ok (forLoop 1 H1 (snd (foldSeven fieldIndex bounds))
                          (fst (foldSeven fieldIndex bounds))).
Proof.
  intros Hc Hs Hr.
  rewrite (parseToken_clean fieldIndex rangePart rangePart None min max Hc
             (splitStep_absent _ Hs)).
  destruct (parseStep_absent rangePart) as (H1 & ->). exists H1.
  cbn [bind]. rewrite Hr. reflexivity.
Qed.

Lemma parseToken_with_step (fieldIndex : nat) (rangePart : string) (c : Z)
    (g : string) (bounds : Z * Z) (min max : Z) :
  isClean fieldIndex rangePart = true ->
  Js.includes "/" rangePart = false ->
  0 < c -> isGarbage fieldIndex g = true ->
  (forall token, parseRange token rangePart min max = Ok bounds) ->
  isClean fieldIndex (rangePart ++ "/" ++ Js.String_ c ++ g) = true /\
  exists Hc,
    parseToken (rangePart ++ "/" ++ Js.String_ c ++ g) min max fieldIndex =
    if outOfBounds min max (fst (foldSeven fieldIndex bounds))
                           (snd (foldSeven fieldIndex bounds))
    then Err (OutOfBounds (rangePart ++ "/" ++ Js.String_ c ++ g) min max)
    else Ok (forLoop c Hc (snd (foldSeven fieldIndex bounds))
                          (fst (foldSeven fieldIndex bounds))).
Proof.
  intros Hc Hs Hpos Hg Hr.
  destruct (number_part fieldIndex c g (Z.lt_le_incl _ _ Hpos) Hg)
    as (Hcl & Hsl & _ & Hp & d & r & E & Hd).
  assert (Hclean : isClean fieldIndex (rangePart ++ "/" ++ Js.String_ c ++ g)
                   = true).
  { change (rangePart ++ "/" ++ Js.String_ c ++ g)
      with (rangePart ++ "/" ++ (Js.String_ c ++ g)).
    rewrite (isClean_app fieldIndex rangePart),
      (isClean_app fieldIndex "/"), Hc, Hcl,
      (clean_sep fieldIndex "/") by auto.
    reflexivity. }
  split; [exact Hclean|].
  rewrite (parseToken_clean fieldIndex _ rangePart (Some (Js.String_ c ++ g))
             min max Hclean (splitStep_present _ _ Hs Hsl)).
  destruct (parseStep_present (rangePart ++ "/" ++ Js.String_ c ++ g)
              (Js.String_ c ++ g) c) as (Hc' & ->);
    [rewrite E; discriminate | exact Hp | exact Hpos |].
  exists Hc'. cbn [bind]. rewrite Hr. reflexivity.
Qed.

Lemma parseToken_bad_step (fieldIndex : nat) (rangePart stepPart : string)
    (min max : Z) :
  isClean fieldIndex rangePart = true ->
  Js.includes "/" rangePart = false ->
  isClean fieldIndex stepPart = true ->
  Js.includes "/" stepPart = false ->
  stepPart <> "" ->
  (forall n, Js.parseInt stepPart = Some n -> n <= 0) ->
  isClean fieldIndex (rangePart ++ "/" ++ stepPart) = true /\
  parseToken (rangePart ++ "/" ++ stepPart) min max fieldIndex =
  Err (InvalidStep (rangePart ++ "/" ++ stepPart)).
Proof.
  intros Hc Hs Hcs Hss Hne Hp.
  assert (Hclean : isClean fieldIndex (rangePart ++ "/" ++ stepPart) = true).
  { rewrite (isClean_app fieldIndex rangePart),
      (isClean_app fieldIndex "/"), Hc, Hcs,
      (clean_sep fieldIndex "/") by auto.
    reflexivity. }
  split; [exact Hclean|].
  rewrite (parseToken_clean fieldIndex _ rangePart (Some stepPart)
             min max Hclean (splitStep_present _ _ Hs Hss)).
  now rewrite (parseStep_invalid _ stepPart Hne Hp).
Qed.

Lemma parseField_clean (t : string) (defIndex : nat) (def : FieldDef) :
  nth_error FIELD_DEFS defIndex = Some def ->
  isClean defIndex t = true -> t <> "" ->
  parseField t defIndex =
  (out <- parseToken t (min def) (max def) defIndex ;; Ok (uniqueSorted out)).
Proof.
  intros Hdef Hc Hne. destruct (clean_token _ _ Hc) as (Htrim & _ & Hcomma).
  now apply parseField_single.
Qed.

Lemma append_nonempty (s1 s2 : string) : s1 <> "" -> s1 ++ s2 <> "".
Proof. destruct s1; [contradiction | discriminate]. Qed.

Lemma String_nonempty (n : Z) : Js.String_ n <> "".
Proof.
  unfold Js.String_. destruct n as [|p|p]; simpl; try discriminate.
  destruct (string_of_uint_nonempty _ (DecimalPos.Unsigned.to_uint_nonnil p))
    as (c & r & -> & _). discriminate.
Qed.

(** The range part of two numbers, each followed by other characters. *)
Lemma range_part (fieldIndex : nat) (a b : Z) (ga gb : string) :
  0 <= a -> 0 <= b ->
  isGarbage fieldIndex ga = true -> isGarbage fieldIndex gb = true ->
  isClean fieldIndex ((Js.String_ a ++ ga) ++ "-" ++ Js.String_ b ++ gb) = true /\
  Js.includes "/" ((Js.String_ a ++ ga) ++ "-" ++ Js.String_ b ++ gb) = false /\
  (Js.String_ a ++ ga) ++ "-" ++ Js.String_ b ++ gb <> "".
Proof.
  intros Ha Hb Hga Hgb.
  destruct (number_part fieldIndex a ga Ha Hga) as (Hca & Hsa & _).
  destruct (number_part fieldIndex b gb Hb Hgb) as (Hcb & Hsb & _).
  split; [|split].
  - change ((Js.String_ a ++ ga) ++ "-" ++ Js.String_ b ++ gb)
      with ((Js.String_ a ++ ga) ++ "-" ++ (Js.String_ b ++ gb)).
    rewrite (isClean_app fieldIndex (Js.String_ a ++ ga)),
      (isClean_app fieldIndex "-"), Hca, Hcb,
      (clean_sep fieldIndex "-") by auto.
    reflexivity.
  - change ((Js.String_ a ++ ga) ++ "-" ++ Js.String_ b ++ gb)
      with ((Js.String_ a ++ ga) ++ "-" ++ (Js.String_ b ++ gb)).
    now rewrite (includes_app "/" (Js.String_ a ++ ga)),
      (includes_app "/" "-"), Hsa, Hsb.
  - apply append_nonempty, append_nonempty, String_nonempty.
Qed.

Lemma outside_true (min max s e : Z) :
  s < min \/ s > max \/ e < min \/ e > max -> outOfBounds min max s e = true.
Proof. apply outOfBounds_true. Qed.


Lemma parseField_no_step (defIndex : nat) (def : FieldDef)
    (rangePart : string) (bounds : Z * Z) :
  nth_error FIELD_DEFS defIndex = Some def ->
  isClean defIndex rangePart = true ->
  Js.includes "/" rangePart = false ->
  rangePart <> "" ->
  (forall token,
      parseRange token rangePart (min def) (max def) = Ok bounds) ->
  exists H1,
    parseField rangePart defIndex =
    if outOfBounds (min def) (max def) (fst (foldSeven defIndex bounds))
                                       (snd (foldSeven defIndex bounds))
    then Err (OutOfBounds rangePart (min def) (max def))
    else Ok (forLoop 1 H1 (snd (foldSeven defIndex bounds))
                          (fst (foldSeven defIndex bounds))).
Proof.
  intros Hdef Hc Hs Hne Hr.
  destruct (parseToken_no_step defIndex rangePart bounds (min def) (max def)
              Hc Hs (Hr rangePart)) as (H1 & Ht).
  exists H1. rewrite (parseField_clean _ _ _ Hdef Hc Hne), Ht.
  destruct (outOfBounds _ _ _ _); [reflexivity|].
  cbn [bind]. now rewrite uniqueSorted_id by apply forLoop_sorted.
Qed.

Lemma parseField_with_step (defIndex : nat) (def : FieldDef)
    (rangePart : string) (c : Z) (g : string) (bounds : Z * Z) :
  nth_error FIELD_DEFS defIndex = Some def ->
  isClean defIndex rangePart = true ->
  Js.includes "/" rangePart = false ->
  rangePart <> "" ->
  0 < c -> isGarbage defIndex g = true ->
  (forall token,
      parseRange token rangePart (min def) (max def) = Ok bounds) ->
  exists Hc,
    parseField (rangePart ++ "/" ++ Js.String_ c ++ g) defIndex =
    if outOfBounds (min def) (max def) (fst (foldSeven defIndex bounds))
                                       (snd (foldSeven defIndex bounds))
    then Err (OutOfBounds (rangePart ++ "/" ++ Js.String_ c ++ g)
                          (min def) (max def))
    else Ok (forLoop c Hc (snd (foldSeven defIndex bounds))
                          (fst (foldSeven defIndex bounds))).
Proof.
  intros Hdef Hc Hs Hne Hpos Hg Hr.
  destruct (parseToken_with_step defIndex rangePart c g bounds
              (min def) (max def) Hc Hs Hpos Hg Hr) as (Hclean & Hc' & Ht).
  exists Hc'.
  rewrite (parseField_clean _ _ _ Hdef Hclean (append_nonempty _ _ Hne)), Ht.
  destruct (outOfBounds _ _ _ _); [reflexivity|].
  cbn [bind]. now rewrite uniqueSorted_id by apply forLoop_sorted.
Qed.

Lemma parseField_bad_step (defIndex : nat) (def : FieldDef)
    (rangePart stepPart : string) :
  nth_error FIELD_DEFS defIndex = Some def ->
  isClean defIndex rangePart = true ->
  Js.includes "/" rangePart = false ->
  rangePart <> "" ->
  isClean defIndex stepPart = true ->
  Js.includes "/" stepPart = false ->
  stepPart <> "" ->
  (forall n, Js.parseInt stepPart = Some n -> n <= 0) ->
  parseField (rangePart ++ "/" ++ stepPart) defIndex =
  Err (InvalidStep (rangePart ++ "/" ++ stepPart)).
Proof.
  intros Hdef Hc Hs Hne Hcs Hss Hnes Hp.
  destruct (parseToken_bad_step defIndex rangePart stepPart
              (min def) (max def) Hc Hs Hcs Hss Hnes Hp) as (Hclean & Ht).
  now rewrite (parseField_clean _ _ _ Hdef Hclean (append_nonempty _ _ Hne)), Ht.
Qed.

Lemma garbage_empty (fieldIndex : nat) : isGarbage fieldIndex "" = true.
Proof.
  unfold isGarbage, isClean, noNames.
  destruct ((fieldIndex =? 3) || (fieldIndex =? 4))%nat; reflexivity.
Qed.



Lemma plain_value (fieldIndex : nat) (n : Z) :
  0 <= n ->
  isClean fieldIndex (Js.String_ n) = true /\
  Js.includes "/" (Js.String_ n) = false /\
  forall token min max,
    parseRange token (Js.String_ n) min max = Ok (n, n).
Proof.
  intros Hn.
  destruct (number_part fieldIndex n "" Hn (garbage_empty _)) as (Hc & Hs & _).
  rewrite app_empty_r in Hc, Hs. split; [exact Hc|]. split; [exact Hs|].
  intros token min max.
  pose proof (parseRange_value token n "" min max fieldIndex Hn
                (garbage_empty _)) as H.
  now rewrite app_empty_r in H.
Qed.

Lemma plain_range (fieldIndex : nat) (a b : Z) :
  0 <= a -> 0 <= b ->
  isClean fieldIndex (Js.String_ a ++ "-" ++ Js.String_ b) = true /\
  Js.includes "/" (Js.String_ a ++ "-" ++ Js.String_ b) = false /\
  forall token min max,
    parseRange token (Js.String_ a ++ "-" ++ Js.String_ b) min max = Ok (a, b).
Proof.
  intros Ha Hb.
  destruct (range_part fieldIndex a b "" "" Ha Hb
              (garbage_empty _) (garbage_empty _)) as (Hc & Hs & _).
  rewrite !app_empty_r in Hc, Hs. split; [exact Hc|]. split; [exact Hs|].
  intros token min max.
  pose proof (parseRange_bounds token a b "" "" min max fieldIndex Ha Hb
                (garbage_empty _) (garbage_empty _)) as H.
  now rewrite !app_empty_r in H.
Qed.


(** * The claims *)

(** C1, the day-of-week alias.  The token [7] expands as the token [0] does,
    both to Sunday alone.  The range [0-7] does not expand to the seven days
    of the week: its upper bound 7 is folded to 0 before the values are
    generated, so that the loop runs from 0 to 0 and the field is Sunday
    alone; likewise [1-7] expands to no day at all. *)
Theorem dow_seven_alias :
  parseField "7" 4 = parseField "0" 4 /\
  parseField "0" 4 = Ok [0] /\
  parseField "0-7" 4 = Ok [0] /\
  parseField "1-7" 4 = Ok [].
Proof. repeat split; vm_compute; reflexivity. Qed.

(** C2, at the step that is missing.  A token that ends in [/] is not
    rejected: the empty step part counts as an absent one and the step is 1,
    so [*/] expands as [*] does and [5/] as [5]. *)
Theorem empty_step_accepted :
  parseField "*/" 0 = parseField "*" 0 /\
  parseField "*/" 0 = Ok (interval 0 59) /\
  parseField "5/" 0 = Ok [5].
Proof. repeat split; vm_compute; reflexivity. Qed.

(** Against C3 as stated: the field text of one space is not rejected, it
    expands to the empty sequence. *)
Lemma blank_field_counterexample :
  isBlank " " = true /\
  parseField " " 0 = Ok [] /\
  parseField " " 0 <> Err MissingField.
Proof.
  split; [|split]; vm_compute; [reflexivity | reflexivity | discriminate].
Qed.

(** C3, as the code has it.  For every field index, the empty field text
    fails with [MissingField]; a field text that is not empty and made of
    white space only does not fail: it has no token left after trimming and
    expands to the empty sequence. *)
Theorem blank_field (fieldStr : string) (defIndex : nat) :
  isBlank fieldStr = true ->
  parseField fieldStr defIndex =
  if String.eqb fieldStr "" then Err MissingField else Ok [].
Proof.
  intros Hb. unfold parseField.
  destruct (String.eqb fieldStr ""); [reflexivity|].
  assert (Hparts : fieldParts fieldStr = []).
  { unfold fieldParts. rewrite split_noSep.
    - simpl. now rewrite (trim_blank _ Hb).
    - apply (includes_allChars Js.isWhiteSpace); [reflexivity | exact Hb]. }
  rewrite Hparts. reflexivity.
Qed.

Lemma blank_field_witness :
  parseField "" 2 = Err MissingField /\ parseField "  " 2 = Ok [].
Proof.
  split.
  - apply (blank_field "" 2). reflexivity.
  - apply (blank_field "  " 2). reflexivity.
Defined.

(** C4, step coverage.  For bounds [a] and [b] in the domain of the field
    and a positive step [c], the field text [a-b/c] expands, without error,
    to the ascending sequence whose members are the [a + k*c], [k >= 0], that
    lie in [[a,b]]; it is the empty sequence when [a > b]. *)
Theorem step_coverage (defIndex : nat) (def : FieldDef) (a b c : Z) :
  nth_error FIELD_DEFS defIndex = Some def ->
  min def <= a <= max def -> min def <= b <= max def -> 0 < c ->
  exists r,
    parseField (Js.String_ a ++ "-" ++ Js.String_ b ++ "/" ++ Js.String_ c)
               defIndex = Ok r /\
    StronglySorted Z.lt r /\
    (forall x, In x r <-> a <= x <= b /\ exists k, 0 <= k /\ x = a + k * c) /\
    (b < a -> r = []).
Proof.
  intros Hdef Ha Hb Hc.
  destruct (FIELD_DEFS_domains _ _ Hdef) as (Hmin & _ & Hdow).
  assert (Ha0 : 0 <= a) by lia. assert (Hb0 : 0 <= b) by lia.
  assert (H7 : defIndex = 4%nat -> a <> 7 /\ b <> 7).
  { intros E. specialize (Hdow E). lia. }
  destruct (parseToken_range_step a b c (min def) (max def) defIndex
              Ha0 Hb0 Hc H7) as (Hc' & Htok).
  set (token := Js.String_ a ++ "-" ++ Js.String_ b ++ "/" ++ Js.String_ c)
    in *.
  assert (Hnum : allChars isNumeric token = true).
  { destruct (String_nonneg a Ha0) as (Hda & _).
    destruct (String_nonneg b Hb0) as (Hdb & _).
    destruct (String_nonneg c (Z.lt_le_incl _ _ Hc)) as (Hdc & _).
    unfold token. rewrite !allChars_app.
    rewrite (digits_numeric _ Hda), (digits_numeric _ Hdb),
      (digits_numeric _ Hdc). reflexivity. }
  destruct (numeric_token _ Hnum) as (Htrim & _ & Hcomma).
  assert (Hne : token <> "").
  { destruct (String_nonneg a Ha0) as (_ & ca & ra & Ea & _).
    unfold token. rewrite Ea. discriminate. }
  exists (forLoop c Hc' b a).
  rewrite (parseField_single token defIndex def Hdef Hne Htrim Hcomma).
  rewrite Htok.
  replace (outOfBounds (min def) (max def) a b) with false
    by (symmetry; apply outOfBounds_false; lia).
  cbn [bind]. rewrite uniqueSorted_id by apply forLoop_sorted.
  split; [reflexivity|]. split; [apply forLoop_sorted|]. split.
  - intros x. rewrite forLoop_In. split.
    + intros (Hx & k & Hk & ->). split; [nia | eauto].
    + intros ((_ & Hx) & Hex). tauto.
  - intros Hba. now apply forLoop_reversed.
Qed.

Lemma step_coverage_witness :
  exists r,
    parseField "10-40/15" 0 = Ok r /\
    StronglySorted Z.lt r /\
    (forall x, In x r <-> 10 <= x <= 40 /\ exists k, 0 <= k /\ x = 10 + k * 15) /\
    (40 < 10 -> r = []).
Proof.
  apply (step_coverage 0 (mkFieldDef "minute" 0 59) 10 40 15);
    [reflexivity | simpl; lia | simpl; lia | lia].
Defined.

(** C5, the wildcard.  For each of the five field definitions, the field text
    [*] expands to the ascending sequence of all the integers from [min] to
    [max]. *)
Theorem wildcard_identity (defIndex : nat) (def : FieldDef) :
  nth_error FIELD_DEFS defIndex = Some def ->
  parseField "*" defIndex = Ok (interval (min def) (max def)).
Proof.
  intros H.
  do 5 (destruct defIndex as [|defIndex];
        [injection H as <-; vm_compute; reflexivity|]).
  destruct defIndex; discriminate H.
Qed.

Lemma wildcard_identity_witness :
  parseField "*" 3 = Ok [1; 2; 3; 4; 5; 6; 7; 8; 9; 10; 11; 12].
Proof. apply (wildcard_identity 3 (mkFieldDef "month" 1 12)). reflexivity. Defined.

(** C6, the union over the tokens.  When two field texts have the same
    comma-separated tokens, in whatever order and however often repeated, and
    both expand, they expand to the same ExpandedField. *)
Theorem token_order_irrelevant
    (fieldStr1 fieldStr2 : string) (defIndex : nat) (r1 r2 : list Z) :
  (forall t, In t (Js.split "," fieldStr1) <-> In t (Js.split "," fieldStr2)) ->
  parseField fieldStr1 defIndex = Ok r1 ->
  parseField fieldStr2 defIndex = Ok r2 ->
  r1 = r2.
Proof.
  intros Hsame. unfold parseField.
  destruct (String.eqb fieldStr1 ""); [discriminate|].
  destruct (String.eqb fieldStr2 ""); [discriminate|].
  assert (Hparts : forall p, In p (fieldParts fieldStr1) <->
                             In p (fieldParts fieldStr2)).
  { intros p. rewrite !fieldParts_In. split;
      intros (Hne & t & Ht & ->); (split; [exact Hne|]);
      exists t; (split; [apply Hsame; exact Ht | reflexivity]). }
  destruct (concatTokens _ _ (fieldParts fieldStr1) _) as [v1|e] eqn:E1;
    [|discriminate].
  destruct (concatTokens _ _ (fieldParts fieldStr2) _) as [v2|e] eqn:E2;
    [|discriminate].
  cbn [bind]. intros [= <-] [= <-].
  apply uniqueSorted_ext. intros x.
  destruct (nth_error FIELD_DEFS defIndex) as [def|].
  - rewrite (concatTokens_In _ _ _ _ _ E1 x), (concatTokens_In _ _ _ _ _ E2 x).
    split; (intros [H|(p & vs & Hp & Ep & Hx)]; [now left|]);
      right; exists p, vs; (split; [apply Hparts; exact Hp | tauto]).
  - apply concatTokens_undefined in E1 as [_ ->].
    apply concatTokens_undefined in E2 as [_ ->]. tauto.
Qed.

Lemma token_order_irrelevant_witness :
  parseField "1-5, 20/10 ,*/30" 0 = Ok [0; 1; 2; 3; 4; 5; 20; 30] /\
  parseField "*/30,1-5,*/30, 20/10 " 0 = Ok [0; 1; 2; 3; 4; 5; 20; 30] /\
  [0; 1; 2; 3; 4; 5; 20; 30] = [0; 1; 2; 3; 4; 5; 20; 30].
Proof.
  split; [vm_compute; reflexivity|]. split; [vm_compute; reflexivity|].
  apply (token_order_irrelevant "1-5, 20/10 ,*/30" "*/30,1-5,*/30, 20/10 " 0).
  - intros t. simpl. tauto.
  - vm_compute. reflexivity.
  - vm_compute. reflexivity.
Defined.

(** C7, the invariant of an ExpandedField.  The result of every successful
    field expansion is strictly ascending, hence without duplicates, and each
    of its members lies in the domain [[min,max]] of the field; in the
    day-of-week field this is checked on the bounds after 7 was folded to 0. *)
Theorem expanded_field_invariant
    (fieldStr : string) (defIndex : nat) (def : FieldDef) (r : list Z) :
  nth_error FIELD_DEFS defIndex = Some def ->
  parseField fieldStr defIndex = Ok r ->
  StronglySorted Z.lt r /\ NoDup r /\
  Forall (fun x => min def <= x <= max def) r.
Proof.
  intros Hdef. unfold parseField. rewrite Hdef.
  destruct (String.eqb fieldStr ""); [discriminate|].
  destruct (concatTokens _ _ _ _) as [values|e] eqn:Ev; [|discriminate].
  cbn [bind]. intros [= <-].
  pose proof (uniqueSorted_sorted values) as Hs.
  split; [exact Hs|]. split; [now apply sorted_lt_NoDup|].
  apply Forall_forall. intros x Hx. apply (proj1 (uniqueSorted_In _ _)) in Hx.
  apply (concatTokens_In _ _ _ _ _ Ev) in Hx as [[]|(p & vs & _ & Ep & Hx)].
  apply parseToken_bounds in Ep. rewrite Forall_forall in Ep. now apply Ep.
Qed.

Lemma expanded_field_invariant_witness :
  StronglySorted Z.lt [0; 1; 3; 5] /\ NoDup [0; 1; 3; 5] /\
  Forall (fun x => 0 <= x <= 6) [0; 1; 3; 5].
Proof.
  apply (expanded_field_invariant "fri,1-3/2,7,mon" 4
           (mkFieldDef "day of week" 0 6) [0; 1; 3; 5]);
    [reflexivity | vm_compute; reflexivity].
Defined.

(** Against C8 as stated: in [xjan] the scan takes [xja] as its group, which
    is no month, and the token is returned as it is although [jan] is one of
    its substrings of three letters. *)
Lemma unaligned_name_counterexample :
  lookup MONTH_NAMES (Js.toLowerCase "jan") = Some 1 /\
  replaceNames ("x" ++ "jan") 3 = "xjan" /\
  replaceNames ("x" ++ "jan") 3 <> "x" ++ Js.String_ 1.
Proof.
  split; [|split]; vm_compute; [reflexivity | reflexivity | discriminate].
Qed.

(** C8, name resolution, as the code has it.  [replaceNames] leaves the token
    of a field other than month (3) and day-of-week (4) as it is.  In these two
    fields it replaces, before any number is parsed, each group of three
    letters that the left-to-right scan of the token finds - a group starts at
    the start of the token, after a character that is not a letter or after
    the group before it - by the rendering of the integer that the name table
    of the field gives for it, whatever the case of its letters, and copies
    the group when the table does not have it.  In particular [jan] expands as
    [1] does in the month field and [mon-fri] as [1-5] in the day-of-week
    field. *)
Theorem name_resolution :
  (forall (token : string) (fieldIndex : nat),
      fieldIndex <> 3%nat -> fieldIndex <> 4%nat ->
      replaceNames token fieldIndex = token) /\
  (forall (fieldIndex : nat) (nameMap : NameTable) (pre w rest : string),
      (fieldIndex = 3%nat /\ nameMap = MONTH_NAMES \/
       fieldIndex = 4%nat /\ nameMap = DOW_NAMES) ->
      atBoundary pre -> isGroup w = true ->
      replaceNames (pre ++ w ++ rest) fieldIndex =
      replaceNames pre fieldIndex
        ++ match lookup nameMap (Js.toLowerCase w) with
           | Some v => Js.String_ v
           | None => w
           end
        ++ replaceNames rest fieldIndex) /\
  parseField "jan" 3 = parseField "1" 3 /\
  parseField "mon-fri" 4 = parseField "1-5" 4.
Proof.
  split; [|split; [|split]].
  - intros token fieldIndex H3 H4. unfold replaceNames.
    apply Nat.eqb_neq in H3, H4. now rewrite H3, H4.
  - intros fieldIndex nameMap pre w rest [[-> ->] | [-> ->]] Hpre Hw;
      unfold replaceNames; cbn [Nat.eqb];
      now rewrite (replaceLetters3_group _ pre Hpre w rest Hw).
  - vm_compute. reflexivity.
  - vm_compute. reflexivity.
Qed.

Lemma name_resolution_witness :
  replaceNames "*/7" 1 = "*/7" /\
  replaceNames ("1-" ++ "DEC" ++ "/2") 3 = "1-" ++ "12" ++ "/2" /\
  replaceNames ("mon-" ++ "FrI" ++ "") 4 = "1-" ++ "5" ++ "".
Proof.
  split; [|split].
  - apply (proj1 name_resolution "*/7" 1%nat); discriminate.
  - apply (proj1 (proj2 name_resolution) 3%nat MONTH_NAMES "1-" "DEC" "/2").
    + left. split; reflexivity.
    + apply (boundary_other "1" "-"). reflexivity.
    + reflexivity.
  - apply (proj1 (proj2 name_resolution) 4%nat DOW_NAMES "mon-" "FrI" "").
    + right. split; reflexivity.
    + apply (boundary_other "mon" "-"). reflexivity.
    + reflexivity.
Defined.

(** Against C9 as stated: [60/0] in the minute field resolves to the bounds
    60 and 60, outside [[0,59]], and the expansion fails, but with
    [InvalidStep]: the step is checked before the bounds. *)
Lemma bounds_rejection_counterexample :
  parseRange "60/0" "60" 0 59 = Ok (60, 60) /\ 60 > 59 /\
  parseField "60/0" 0 = Err (InvalidStep "60/0") /\
  parseField "60/0" 0 <> Err (OutOfBounds "60/0" 0 59).
Proof.
  split; [reflexivity|]. split; [lia|].
  split; vm_compute; [reflexivity | discriminate].
Qed.

(** C9, bounds rejection, as the code has it.  In each of the five fields, a
    token whose step is valid and whose range part resolves to bounds of
    which one, after the fold of 7 to 0 in the day-of-week field, lies
    outside [[min,max]] fails with [OutOfBounds], naming the token and the
    allowed range: so do the field texts [a-b], [a-b/c], [n] and [n/c] of
    such numbers, and [60] in the minute field.  A token whose step is not
    valid fails with [InvalidStep] whatever its bounds, as [60/0] does: the
    step is checked first. *)
Theorem bounds_rejection :
  (forall (token : string) (defIndex : nat) (def : FieldDef) step bounds,
      nth_error FIELD_DEFS defIndex = Some def ->
      let t := replaceNames (Js.trim token) defIndex in
      parseStep t (snd (splitStep t)) = Ok step ->
      parseRange t (fst (splitStep t)) (min def) (max def) = Ok bounds ->
      (fst (foldSeven defIndex bounds) < min def \/
       fst (foldSeven defIndex bounds) > max def \/
       snd (foldSeven defIndex bounds) < min def \/
       snd (foldSeven defIndex bounds) > max def) ->
      parseToken token (min def) (max def) defIndex =
      Err (OutOfBounds t (min def) (max def))) /\
  (forall (defIndex : nat) (def : FieldDef) (a b c : Z),
      nth_error FIELD_DEFS defIndex = Some def ->
      0 <= a -> 0 <= b -> 0 < c ->
      (fst (foldSeven defIndex (a, b)) < min def \/
       fst (foldSeven defIndex (a, b)) > max def \/
       snd (foldSeven defIndex (a, b)) < min def \/
       snd (foldSeven defIndex (a, b)) > max def) ->
      parseField (Js.String_ a ++ "-" ++ Js.String_ b) defIndex =
      Err (OutOfBounds (Js.String_ a ++ "-" ++ Js.String_ b)
                       (min def) (max def)) /\
      parseField (Js.String_ a ++ "-" ++ Js.String_ b ++ "/" ++ Js.String_ c)
                 defIndex =
      Err (OutOfBounds
             (Js.String_ a ++ "-" ++ Js.String_ b ++ "/" ++ Js.String_ c)
             (min def) (max def))) /\
  (forall (defIndex : nat) (def : FieldDef) (n c : Z),
      nth_error FIELD_DEFS defIndex = Some def ->
      0 <= n -> 0 < c ->
      (fst (foldSeven defIndex (n, n)) < min def \/
       fst (foldSeven defIndex (n, n)) > max def) ->
      parseField (Js.String_ n) defIndex =
      Err (OutOfBounds (Js.String_ n) (min def) (max def)) /\
      parseField (Js.String_ n ++ "/" ++ Js.String_ c) defIndex =
      Err (OutOfBounds (Js.String_ n ++ "/" ++ Js.String_ c)
                       (min def) (max def))) /\
  (forall (defIndex : nat) (def : FieldDef) (a b : Z) (stepPart : string),
      nth_error FIELD_DEFS defIndex = Some def ->
      0 <= a -> 0 <= b ->
      isClean defIndex stepPart = true ->
      Js.includes "/" stepPart = false ->
      stepPart <> "" ->
      (forall n, Js.parseInt stepPart = Some n -> n <= 0) ->
      parseField (Js.String_ a ++ "-" ++ Js.String_ b ++ "/" ++ stepPart)
                 defIndex =
      Err (InvalidStep
             (Js.String_ a ++ "-" ++ Js.String_ b ++ "/" ++ stepPart))) /\
  parseField "60" 0 = Err (OutOfBounds "60" 0 59) /\
  parseField "60/0" 0 = Err (InvalidStep "60/0").
Proof.
  split; [|split; [|split; [|split; [|split; vm_compute; reflexivity]]]].
  - intros token defIndex def step bounds _ t Hstep Hrange Hout.
    unfold parseToken. fold t.
    destruct (splitStep t) as [rangePart stepPart]. simpl in Hstep, Hrange.
    rewrite Hstep. cbn [bind]. rewrite Hrange. cbn [bind].
    destruct (foldSeven defIndex bounds) as [rangeStart rangeEnd].
    simpl in Hout. apply outOfBounds_true in Hout. now rewrite Hout.
  - intros defIndex def a b c Hdef Ha Hb Hc Hout.
    destruct (plain_range defIndex a b Ha Hb) as (Hcl & Hs & Hr).
    assert (Hne : Js.String_ a ++ "-" ++ Js.String_ b <> "")
      by (apply append_nonempty, String_nonempty).
    apply outside_true in Hout. split.
    + destruct (parseField_no_step defIndex def _ (a, b) Hdef Hcl Hs Hne
                  (fun token => Hr token _ _)) as (H1 & ->).
      now rewrite Hout.
    + destruct (parseField_with_step defIndex def _ c "" (a, b) Hdef Hcl Hs
                  Hne Hc (garbage_empty _) (fun token => Hr token _ _))
        as (Hc' & E).
      rewrite app_empty_r, Hout, !app_assoc_s in E. exact E.
  - intros defIndex def n c Hdef Hn Hc Hout.
    destruct (plain_value defIndex n Hn) as (Hcl & Hs & Hr).
    assert (Hout' : outOfBounds (min def) (max def)
                      (fst (foldSeven defIndex (n, n)))
                      (snd (foldSeven defIndex (n, n))) = true).
    { apply outside_true. tauto. }
    split.
    + destruct (parseField_no_step defIndex def _ (n, n) Hdef Hcl Hs
                  (String_nonempty n) (fun token => Hr token _ _)) as (H1 & ->).
      now rewrite Hout'.
    + destruct (parseField_with_step defIndex def _ c "" (n, n) Hdef Hcl Hs
                  (String_nonempty n) Hc (garbage_empty _)
                  (fun token => Hr token _ _)) as (Hc' & E).
      rewrite app_empty_r, Hout' in E. exact E.
  - intros defIndex def a b stepPart Hdef Ha Hb Hcs Hss Hne Hp.
    destruct (plain_range defIndex a b Ha Hb) as (Hcl & Hs & _).
    pose proof (parseField_bad_step defIndex def _ stepPart Hdef Hcl Hs
                  (append_nonempty _ _ (String_nonempty a)) Hcs Hss Hne Hp)
      as E.
    rewrite !app_assoc_s in E. exact E.
Qed.

Lemma bounds_rejection_witness :
  parseToken " 0-9 " 0 6 4 = Err (OutOfBounds "0-9" 0 6) /\
  parseField "20-24/2" 1 = Err (OutOfBounds "20-24/2" 0 23) /\
  parseField "32" 2 = Err (OutOfBounds "32" 1 31) /\
  parseField "1-99/x" 1 = Err (InvalidStep "1-99/x").
Proof.
  split; [|split; [|split]].
  - eapply (proj1 bounds_rejection " 0-9 " 4%nat
              (mkFieldDef "day of week" 0 6) _ (0, 9)).
    + reflexivity.
    + reflexivity.
    + reflexivity.
    + simpl. lia.
  - apply (proj1 (proj2 bounds_rejection) 1%nat (mkFieldDef "hour" 0 23)
             20 24 2); [reflexivity | lia | lia | lia | simpl; lia].
  - apply (proj1 (proj2 (proj2 bounds_rejection)) 2%nat
             (mkFieldDef "day of month" 1 31) 32 1);
      [reflexivity | lia | lia | simpl; lia].
  - apply (proj1 (proj2 (proj2 (proj2 bounds_rejection))) 1%nat
             (mkFieldDef "hour" 0 23) 1 99 "x");
      [reflexivity | lia | lia | reflexivity | reflexivity | discriminate |].
    intros n H. vm_compute in H. discriminate H.
Defined.



(** * Further properties *)

(** ** uniqueSorted *)

(** X1.  [uniqueSorted] returns a strictly ascending array, hence one without
    duplicates, that has exactly the members of its argument and is not
    longer. *)
Theorem uniqueSorted_spec (arr : list Z) :
  StronglySorted Z.lt (uniqueSorted arr) /\
  NoDup (uniqueSorted arr) /\
  (forall x, In x (uniqueSorted arr) <-> In x arr) /\
  (List.length (uniqueSorted arr) <= List.length arr)%nat.
Proof.
  pose proof (uniqueSorted_sorted arr) as Hs.
  pose proof (sorted_lt_NoDup _ Hs) as Hnd.
  repeat split; try assumption; try (now apply uniqueSorted_In).
  apply NoDup_incl_length; [exact Hnd|].
  intros x Hx. now apply uniqueSorted_In.
Qed.

(** X2.  [uniqueSorted] is idempotent, and what it makes of a concatenation
    depends neither on the order of the two parts nor on whether they were
    normalised before. *)
Theorem uniqueSorted_canonical (l1 l2 : list Z) :
  uniqueSorted (uniqueSorted l1) = uniqueSorted l1 /\
  uniqueSorted (l1 ++ l2) = uniqueSorted (l2 ++ l1) /\
  uniqueSorted (l1 ++ l2) = uniqueSorted (uniqueSorted l1 ++ uniqueSorted l2).
Proof.
  split; [|split]; apply uniqueSorted_ext; intros x;
    rewrite ?in_app_iff, ?uniqueSorted_In; tauto.
Qed.

(** ** padLeftRight *)

Lemma repeat_length (c : ascii) (n : nat) : String.length (Js.repeat c n) = n.
Proof. induction n as [|n IH]; simpl; congruence. Qed.

Lemma repeat_blank (n : nat) : isBlank (Js.repeat " " n) = true.
Proof. induction n as [|n IH]; [reflexivity | exact IH]. Qed.

Lemma length_app (s1 s2 : string) :
  String.length (s1 ++ s2) = (String.length s1 + String.length s2)%nat.
Proof. induction s1 as [|c r IH]; simpl; congruence. Qed.

Lemma trimEnd_app_blank (s b : string) :
  isBlank b = true -> Js.trimEnd (s ++ b) = Js.trimEnd s.
Proof.
  intros Hb. induction s as [|c r IH]; cbn [append Js.trimEnd].
  - now apply trimEnd_blank.
  - now rewrite IH.
Qed.

Lemma padLeftRight_eq (s : string) (width : nat) :
  padLeftRight s width = s ++ Js.repeat " " (width - String.length s).
Proof.
  unfold padLeftRight.
  destruct (Nat.leb_spec width (String.length s)) as [H|H]; [|reflexivity].
  replace (width - String.length s)%nat with 0%nat by lia.
  simpl. now rewrite app_empty_r.
Qed.

Lemma padLeftRight_length (s : string) (width : nat) :
  String.length (padLeftRight s width) = Nat.max (String.length s) width.
Proof. rewrite padLeftRight_eq, length_app, repeat_length. lia. Qed.

(** X3.  [padLeftRight] never cuts its argument: it appends spaces, as many as
    are missing to the width, so that the result is as long as the longer of
    the two; and padding once more changes nothing. *)
Theorem padLeftRight_spec (s : string) (width : nat) :
  padLeftRight s width = s ++ Js.repeat " " (width - String.length s) /\
  String.length (padLeftRight s width) = Nat.max (String.length s) width /\
  padLeftRight (padLeftRight s width) width = padLeftRight s width.
Proof.
  split; [apply padLeftRight_eq|]. split; [apply padLeftRight_length|].
  unfold padLeftRight at 1. rewrite padLeftRight_length.
  destruct (Nat.leb_spec width (Nat.max (String.length s) width));
    [reflexivity | lia].
Qed.

(** X4.  The padding is undone by [trimEnd]: up to trailing white space the
    padded label is the label. *)
Theorem padLeftRight_trimEnd (s : string) (width : nat) :
  Js.trimEnd (padLeftRight s width) = Js.trimEnd s.
Proof.
  rewrite padLeftRight_eq. apply trimEnd_app_blank, repeat_blank.
Qed.

(** ** parseToken *)

Lemma trimEnd_app (w t : string) :
  Js.trimEnd (w ++ t) =
  match Js.trimEnd t with
  | EmptyString => Js.trimEnd w
  | String _ _ => w ++ Js.trimEnd t
  end.
Proof.
  induction w as [|c r IH]; cbn [append Js.trimEnd].
  - now destruct (Js.trimEnd t).
  - rewrite IH. destruct (Js.trimEnd t) as [|d t']; [reflexivity|].
    now destruct r.
Qed.

Lemma trim_surrounded (w1 t w2 : string) :
  isBlank w1 = true -> isBlank w2 = true ->
  Js.trim (w1 ++ t ++ w2) = Js.trim t.
Proof.
  intros H1 H2. unfold Js.trim.
  rewrite <- app_assoc_s, (trimEnd_app_blank _ _ H2), trimEnd_app.
  destruct (Js.trimEnd t) as [|d t'].
  - now rewrite (trimEnd_blank _ H1).
  - now apply trimStart_blank.
Qed.

(** X5.  White space around a token does not count: a token with blanks
    before and after it expands, or fails, as the token itself. *)
Theorem surrounding_whitespace_ignored
    (w1 token w2 : string) (min max : Z) (fieldIndex : nat) :
  isBlank w1 = true -> isBlank w2 = true ->
  parseToken (w1 ++ token ++ w2) min max fieldIndex =
  parseToken token min max fieldIndex.
Proof.
  intros H1 H2. unfold parseToken. now rewrite (trim_surrounded _ _ _ H1 H2).
Qed.

Lemma surrounding_whitespace_ignored_witness :
  parseToken ("  " ++ "mon-fri/2" ++ " ") 0 6 4 = Ok [1; 3; 5].
Proof.
  rewrite (surrounding_whitespace_ignored "  " "mon-fri/2" " " 0 6 4);
    [vm_compute | |]; reflexivity.
Defined.

Lemma parseStep_error (token : string) (stepPart : option string) (e : error) :
  parseStep token stepPart = Err e -> e = InvalidStep token.
Proof.
  unfold parseStep.
  destruct (match stepPart with
            | Some (String _ _ as s) => Js.parseInt s
            | _ => Some 1
            end) as [step|]; [|now intros [= <-]].
  destruct (Z_le_gt_dec step 0); [now intros [= <-] | discriminate].
Qed.

Lemma parseRange_error_kind (token rangePart : string) (min max : Z)
    (e : error) :
  parseRange token rangePart min max = Err e ->
  e = InvalidRange token \/ e = InvalidValue rangePart token.
Proof.
  unfold parseRange.
  destruct (String.eqb rangePart "*"); [discriminate|].
  destruct (Js.includes "-" rangePart).
  - destruct (nth 0 _ None); [|intros [= <-]; auto].
    destruct (nth 1 _ None); [discriminate | intros [= <-]; auto].
  - destruct (Js.parseInt rangePart); [discriminate | intros [= <-]; auto].
Qed.

Lemma parseToken_not_engine
    (token : string) (min max : Z) (fieldIndex : nat) (e : error) :
  parseToken token min max fieldIndex = Err e ->
  e <> MissingField /\ e <> TypeError.
Proof.
  unfold parseToken.
  destruct (splitStep _) as [rangePart stepPart].
  destruct (parseStep _ stepPart) as [step|e1] eqn:Es; cbn [bind].
  - destruct (parseRange _ rangePart min max) as [bounds|e2] eqn:Er;
      cbn [bind].
    + destruct (foldSeven fieldIndex bounds) as [rangeStart rangeEnd].
      destruct (outOfBounds min max rangeStart rangeEnd);
        [intros [= <-]; split; discriminate | discriminate].
    + intros [= <-].
      destruct (parseRange_error_kind _ _ _ _ _ Er) as [-> | ->];
        split; discriminate.
  - intros [= <-]. rewrite (parseStep_error _ _ _ Es). split; discriminate.
Qed.

(** Witness of [invalid_step_rejected] (X7): a step that is zero. *)
Lemma invalid_step_rejected_witness :
  parseToken "1-5/0" 0 59 0 = Err (InvalidStep "1-5/0").
Proof.
  apply (invalid_step_rejected "1-5/0" 0 59 0 "0").
  - reflexivity.
  - discriminate.
  - intros n H. vm_compute in H. injection H as <-. lia.
Defined.

(** ** Tokens of names and numbers *)

Lemma isLetter_facts (c : ascii) :
  Js.isLetter c = true ->
  Js.isWhiteSpace c = false /\ Ascii.eqb c "," = false.
Proof.
  intros H.
  destruct c as [[] [] [] [] [] [] [] []]; try discriminate H; split;
    reflexivity.
Qed.

Lemma digits_noWs (s : string) :
  allChars Js.isDigit s = true ->
  allChars (fun c => negb (Js.isWhiteSpace c)) s = true.
Proof.
  apply allChars_impl. intros c Hc.
  now destruct (isDigit_not_sign c Hc) as (_ & _ & -> & _).
Qed.

Lemma digits_noLetters (s : string) :
  allChars Js.isDigit s = true ->
  allChars (fun c => negb (Js.isLetter c)) s = true.
Proof.
  apply allChars_impl. intros c Hc.
  now destruct (isDigit_not_sign c Hc) as (_ & _ & _ & ->).
Qed.

(** [parseToken] sees a token only through its resolved form. *)
Lemma parseToken_resolved (t t' : string) (min max : Z) (fieldIndex : nat) :
  replaceNames (Js.trim t) fieldIndex = replaceNames (Js.trim t') fieldIndex ->
  parseToken t min max fieldIndex = parseToken t' min max fieldIndex.
Proof. intros H. unfold parseToken. now rewrite H. Qed.

Lemma MONTH_NAMES_range (key : string) (v : Z) :
  lookup MONTH_NAMES key = Some v -> 1 <= v <= 12.
Proof.
  unfold MONTH_NAMES. cbn [lookup].
  repeat match goal with
         | |- context [String.eqb ?k key] => destruct (String.eqb k key)
         end;
    intros [= <-]; lia.
Qed.

Lemma DOW_NAMES_range (key : string) (v : Z) :
  lookup DOW_NAMES key = Some v -> 0 <= v <= 6.
Proof.
  unfold DOW_NAMES. cbn [lookup].
  repeat match goal with
         | |- context [String.eqb ?k key] => destruct (String.eqb k key)
         end;
    intros [= <-]; lia.
Qed.

Lemma group_token (w : string) :
  isGroup w = true ->
  w <> "" /\ Js.trim w = w /\ Js.includes "," w = false.
Proof.
  intros H. unfold isGroup in H. apply andb_prop in H as [Hlen Hlet].
  split; [destruct w; [discriminate Hlen | discriminate]|]. split.
  - apply trim_noWs. revert Hlet. apply allChars_impl.
    intros c Hc. now destruct (isLetter_facts c Hc) as (-> & _).
  - apply (includes_allChars Js.isLetter); [reflexivity | exact Hlet].
Qed.

Lemma replaceNames_group (w : string) (fieldIndex : nat) (nameMap : NameTable)
    (v : Z) :
  (fieldIndex = 3%nat /\ nameMap = MONTH_NAMES \/
   fieldIndex = 4%nat /\ nameMap = DOW_NAMES) ->
  isGroup w = true ->
  lookup nameMap (Js.toLowerCase w) = Some v ->
  replaceNames w fieldIndex = Js.String_ v.
Proof.
  intros Hf Hw Hv. rewrite <- (app_empty_r w) at 1.
  destruct Hf as [[-> ->] | [-> ->]]; unfold replaceNames; cbn [Nat.eqb];
    rewrite (replaceLetters3_group_head _ w "" Hw), Hv;
    cbn [replaceLetters3]; apply app_empty_r.
Qed.

(** X8.  The name of a month, in the month field, and the name of a day, in
    the day-of-week field, expand to the one number that the table of the
    field gives for it, whatever the case of its three letters. *)
Theorem name_expands_to_number
    (w : string) (fieldIndex : nat) (nameMap : NameTable) (v : Z) :
  (fieldIndex = 3%nat /\ nameMap = MONTH_NAMES \/
   fieldIndex = 4%nat /\ nameMap = DOW_NAMES) ->
  isGroup w = true ->
  lookup nameMap (Js.toLowerCase w) = Some v ->
  parseField w fieldIndex = Ok [v].
Proof.
  intros Hf Hw Hv.
  destruct (group_token w Hw) as (Hne & Htrim & Hcomma).
  assert (Hdef : exists def, nth_error FIELD_DEFS fieldIndex = Some def /\
                             min def <= v <= max def /\ 0 <= v /\
                             (fieldIndex = 4%nat -> v <> 7)).
  { destruct Hf as [[-> ->] | [-> ->]].
    - apply MONTH_NAMES_range in Hv. exists (mkFieldDef "month" 1 12).
      simpl. repeat split; (reflexivity || lia || discriminate).
    - apply DOW_NAMES_range in Hv. exists (mkFieldDef "day of week" 0 6).
      simpl. repeat split; (reflexivity || lia). }
  destruct Hdef as (def & Hdef & Hin & H0 & H7).
  rewrite (parseField_single w fieldIndex def Hdef Hne Htrim Hcomma).
  destruct (String_nonneg v H0) as (Hdig & _).
  destruct (numeric_token _ (digits_numeric _ Hdig)) as (Htv & Hnv & _).
  rewrite (parseToken_resolved w (Js.String_ v)).
  - rewrite (parseToken_value v _ _ _ H0 H7).
    replace (outOfBounds (min def) (max def) v v) with false
      by (symmetry; apply outOfBounds_false; lia).
    reflexivity.
  - rewrite Htrim, Htv, Hnv. exact (replaceNames_group w _ _ v Hf Hw Hv).
Qed.

Lemma name_expands_to_number_witness :
  parseField "SeP" 3 = Ok [9] /\ parseField "Thu" 4 = Ok [4].
Proof.
  split.
  - apply (name_expands_to_number "SeP" 3 MONTH_NAMES 9);
      [left; split; reflexivity | reflexivity | reflexivity].
  - apply (name_expands_to_number "Thu" 4 DOW_NAMES 4);
      [right; split; reflexivity | reflexivity | reflexivity].
Defined.

(** X9.  The wildcard with a step.  For each of the five fields and a
    positive step [c], the field text [*/c] expands to the ascending sequence
    [min], [min + c], [min + 2c], ... of the values that do not exceed
    [max]. *)
Theorem wildcard_step (defIndex : nat) (def : FieldDef) (c : Z) :
  nth_error FIELD_DEFS defIndex = Some def -> 0 < c ->
  exists r,
    parseField ("*/" ++ Js.String_ c) defIndex = Ok r /\
    StronglySorted Z.lt r /\
    (forall x, In x r <->
               x <= max def /\ exists k, 0 <= k /\ x = min def + k * c).
Proof.
  intros Hdef Hc.
  destruct (FIELD_DEFS_domains _ _ Hdef) as (Hmin & Hle & Hdow).
  destruct (String_nonneg c (Z.lt_le_incl _ _ Hc)) as (Hdc & cc & rc & Ec & Hcc).
  set (token := "*/" ++ Js.String_ c).
  assert (Htrim : Js.trim token = token).
  { apply trim_noWs. unfold token. rewrite allChars_app.
    now rewrite (digits_noWs _ Hdc). }
  assert (Hnames : replaceNames token defIndex = token).
  { apply replaceNames_noLetters. unfold token. rewrite allChars_app.
    now rewrite (digits_noLetters _ Hdc). }
  assert (Hcomma : Js.includes "," token = false).
  { unfold token. rewrite includes_app.
    now rewrite (digits_no_sep "," _ eq_refl Hdc). }
  assert (Hne : token <> "") by discriminate.
  rewrite (parseField_single token defIndex def Hdef Hne Htrim Hcomma).
  unfold parseToken. rewrite Htrim, Hnames.
  assert (Hsplit : splitStep token = ("*", Some (Js.String_ c))).
  { unfold splitStep, token.
    change ("*/" ++ Js.String_ c) with ("*" ++ String "/" (Js.String_ c)).
    rewrite split_app by reflexivity.
    now rewrite (split_noSep "/" _ (digits_no_sep "/" _ eq_refl Hdc)). }
  rewrite Hsplit.
  destruct (parseStep_present token (Js.String_ c) c) as (Hc' & ->);
    [rewrite Ec; discriminate | apply parseInt_String_exact | exact Hc |].
  cbn [bind]. unfold parseRange. cbn [String.eqb Ascii.eqb Bool.eqb bind].
  rewrite foldSeven_id by (intros E; specialize (Hdow E); lia).
  replace (outOfBounds (min def) (max def) (min def) (max def)) with false
    by (symmetry; apply outOfBounds_false; lia).
  cbn [bind proj1_sig proj2_sig].
  exists (forLoop c Hc' (max def) (min def)).
  rewrite uniqueSorted_id by apply forLoop_sorted.
  split; [reflexivity|]. split; [apply forLoop_sorted|].
  intros x. apply forLoop_In.
Qed.

Lemma wildcard_step_witness :
  exists r,
    parseField "*/15" 0 = Ok r /\
    StronglySorted Z.lt r /\
    (forall x, In x r <-> x <= 59 /\ exists k, 0 <= k /\ x = 0 + k * 15).
Proof.
  apply (wildcard_step 0 (mkFieldDef "minute" 0 59) 15); [reflexivity | lia].
Defined.

(** ** Fields of several tokens *)

Lemma split_join (sep : ascii) (ts : list string) :
  ts <> [] ->
  Forall (fun t => Js.includes sep t = false) ts ->
  Js.split sep (Js.join (String sep "") ts) = ts.
Proof.
  induction ts as [|x rest IH]; [contradiction|].
  intros _ Hall. inversion Hall as [|? ? Hx Hrest]; subst.
  destruct rest as [|y rest'].
  - simpl. now apply split_noSep.
  - change (Js.join (String sep "") (x :: y :: rest'))
      with (x ++ String sep (Js.join (String sep "") (y :: rest'))).
    rewrite (split_app sep _ _ Hx). f_equal.
    apply IH; [discriminate | exact Hrest].
Qed.

Lemma split_app_pieces (sep : ascii) (s1 s2 : string) :
  Js.split sep (s1 ++ String sep s2) = (Js.split sep s1 ++ Js.split sep s2)%list.
Proof.
  induction s1 as [|c r IH]; cbn [append Js.split].
  - now rewrite Ascii.eqb_refl.
  - rewrite IH. destruct (Ascii.eqb c sep); [reflexivity|].
    destruct (split_nonempty sep r) as (h & t & ->). reflexivity.
Qed.

Lemma fieldParts_app (s1 s2 : string) :
  fieldParts (s1 ++ "," ++ s2) = (fieldParts s1 ++ fieldParts s2)%list.
Proof.
  unfold fieldParts.
  change (s1 ++ "," ++ s2) with (s1 ++ String "," s2).
  now rewrite split_app_pieces, map_app, filter_app.
Qed.

Lemma concatTokens_acc (def : option FieldDef) (defIndex : nat)
    (parts : list string) (values : list Z) :
  concatTokens def defIndex parts values =
  (out <- concatTokens def defIndex parts [] ;; Ok (values ++ out)%list).
Proof.
  revert values. induction parts as [|p rest IH]; intros values.
  - simpl. now rewrite app_nil_r.
  - cbn [concatTokens]. destruct def as [def|]; [|reflexivity].
    destruct (parseToken p (min def) (max def) defIndex) as [vs|e];
      [|reflexivity].
    cbn [bind app]. rewrite (IH (values ++ vs)%list), (IH vs).
    destruct (concatTokens (Some def) defIndex rest []) as [out|e];
      [|reflexivity].
    cbn [bind]. now rewrite app_assoc.
Qed.

Lemma concatTokens_app (def : option FieldDef) (defIndex : nat)
    (l1 l2 : list string) (values : list Z) :
  concatTokens def defIndex (l1 ++ l2) values =
  (out <- concatTokens def defIndex l1 values ;;
   concatTokens def defIndex l2 out).
Proof.
  revert values. induction l1 as [|p rest IH]; intros values; [reflexivity|].
  cbn [app concatTokens]. destruct def as [def|]; [|reflexivity].
  destruct (parseToken p (min def) (max def) defIndex) as [vs|e];
    [|reflexivity].
  cbn [bind]. apply IH.
Qed.

(** Every token succeeds, or there is a first one that fails. *)
Lemma concatTokens_cases (def : FieldDef) (defIndex : nat)
    (parts : list string) (values : list Z) :
  match concatTokens (Some def) defIndex parts values with
  | Ok _ =>
      forall p, In p parts ->
                exists vs, parseToken p (min def) (max def) defIndex = Ok vs
  | Err e =>
      exists l1 p l2,
        parts = (l1 ++ p :: l2)%list /\
        (forall q, In q l1 ->
                   exists vs, parseToken q (min def) (max def) defIndex = Ok vs) /\
        parseToken p (min def) (max def) defIndex = Err e
  end.
Proof.
  revert values. induction parts as [|p rest IH]; intros values.
  - simpl. intros p [].
  - cbn [concatTokens].
    destruct (parseToken p (min def) (max def) defIndex) as [vs|e] eqn:Ep.
    + cbn [bind]. specialize (IH (values ++ vs)%list).
      destruct (concatTokens (Some def) defIndex rest (values ++ vs)) as [out|e].
      * intros q [<-|Hq]; [eauto | now apply IH].
      * destruct IH as (l1 & q & l2 & -> & Hl1 & Hq).
        exists (p :: l1), q, l2. split; [reflexivity|]. split; [|exact Hq].
        intros x [<-|Hx]; [eauto | now apply Hl1].
    + cbn [bind]. exists [], p, rest. split; [reflexivity|].
      split; [intros q []| exact Ep].
Qed.

Lemma eqb_empty (s : string) : String.eqb s "" = true <-> s = "".
Proof. destruct s; simpl; split; (reflexivity || discriminate). Qed.

(** X6.  In each of the five fields, the errors of [parseToken] are the four
    that it throws itself, each naming the token as it is after trimming and
    name resolution; an invalid value also names the range part, and an
    out-of-bounds error the domain of the field.  So the expansion of a field
    fails with [MissingField], on the empty text, or with one of these four
    errors about one of the tokens of the field.  Neither fails in another
    way. *)
Theorem parseToken_errors (defIndex : nat) (def : FieldDef) (e : error) :
  nth_error FIELD_DEFS defIndex = Some def ->
  (forall token : string,
      parseToken token (min def) (max def) defIndex = Err e ->
      let t := replaceNames (Js.trim token) defIndex in
      e = InvalidStep t \/ e = InvalidRange t \/
      e = InvalidValue (fst (splitStep t)) t \/
      e = OutOfBounds t (min def) (max def)) /\
  (forall fieldStr : string,
      parseField fieldStr defIndex = Err e ->
      fieldStr = "" /\ e = MissingField \/
      exists p,
        In p (fieldParts fieldStr) /\
        let t := replaceNames (Js.trim p) defIndex in
        e = InvalidStep t \/ e = InvalidRange t \/
        e = InvalidValue (fst (splitStep t)) t \/
        e = OutOfBounds t (min def) (max def)).
Proof.
  intros Hdef.
  assert (Htoken : forall token,
             parseToken token (min def) (max def) defIndex = Err e ->
             let t := replaceNames (Js.trim token) defIndex in
             e = InvalidStep t \/ e = InvalidRange t \/
             e = InvalidValue (fst (splitStep t)) t \/
             e = OutOfBounds t (min def) (max def)).
  { intros token H t. unfold parseToken in H. fold t in H.
    destruct (splitStep t) as [rangePart stepPart]. cbn [fst].
    destruct (parseStep t stepPart) as [step|e1] eqn:Es; cbn [bind] in H.
    - destruct (parseRange t rangePart (min def) (max def))
        as [bounds|e2] eqn:Er; cbn [bind] in H.
      + destruct (foldSeven defIndex bounds) as [rangeStart rangeEnd].
        destruct (outOfBounds (min def) (max def) rangeStart rangeEnd);
          [injection H as <-; auto | discriminate].
      + injection H as <-.
        destruct (parseRange_error_kind _ _ _ _ _ Er) as [-> | ->]; auto.
    - injection H as <-. rewrite (parseStep_error _ _ _ Es). auto. }
  split; [exact Htoken|].
  intros fieldStr. unfold parseField. rewrite Hdef.
  destruct (String.eqb fieldStr "") eqn:E.
  - destruct fieldStr; [|discriminate E]. intros [= <-]. now left.
  - pose proof (concatTokens_cases def defIndex (fieldParts fieldStr) [])
      as Hc.
    destruct (concatTokens (Some def) defIndex (fieldParts fieldStr) [])
      as [values|e']; cbn [bind]; [discriminate|].
    intros [= <-]. destruct Hc as (l1 & p & l2 & Eparts & _ & Hp).
    right. exists p. split; [|exact (Htoken p Hp)].
    rewrite Eparts. apply in_or_app. right. now left.
Qed.

Lemma parseToken_errors_witness :
  (InvalidValue "x" "x/2" = InvalidStep "x/2" \/
   InvalidValue "x" "x/2" = InvalidRange "x/2" \/
   InvalidValue "x" "x/2" = InvalidValue "x" "x/2" \/
   InvalidValue "x" "x/2" = OutOfBounds "x/2" 0 59) /\
  ("1, x/2" = "" /\ InvalidValue "x" "x/2" = MissingField \/
   exists p,
     In p (fieldParts "1, x/2") /\
     let t := replaceNames (Js.trim p) 0 in
     InvalidValue "x" "x/2" = InvalidStep t \/
     InvalidValue "x" "x/2" = InvalidRange t \/
     InvalidValue "x" "x/2" = InvalidValue (fst (splitStep t)) t \/
     InvalidValue "x" "x/2" = OutOfBounds t 0 59).
Proof.
  pose proof (parseToken_errors 0 (mkFieldDef "minute" 0 59)
                (InvalidValue "x" "x/2") eq_refl) as (Ht & Hf).
  split.
  - apply (Ht " x/2"). reflexivity.
  - apply (Hf "1, x/2"). reflexivity.
Defined.

(** X10.  A field expands exactly when its text is not empty and each of its
    tokens expands. *)
Theorem parseField_succeeds_iff
    (fieldStr : string) (defIndex : nat) (def : FieldDef) :
  nth_error FIELD_DEFS defIndex = Some def ->
  ((exists r, parseField fieldStr defIndex = Ok r) <->
   fieldStr <> "" /\
   forall p, In p (fieldParts fieldStr) ->
             exists vs, parseToken p (min def) (max def) defIndex = Ok vs).
Proof.
  intros Hdef. unfold parseField. rewrite Hdef.
  pose proof (concatTokens_cases def defIndex (fieldParts fieldStr) []) as Hc.
  destruct (String.eqb fieldStr "") eqn:E.
  - apply eqb_empty in E. split; [intros (r & [=]) | intros [Hne _]; contradiction].
  - assert (Hne : fieldStr <> "").
    { intros H. apply eqb_empty in H. congruence. }
    destruct (concatTokens (Some def) defIndex (fieldParts fieldStr) [])
      as [values|e]; cbn [bind].
    + split; [intros _; split; assumption | eauto].
    + destruct Hc as (l1 & p & l2 & Eparts & _ & Hp).
      split; [intros (r & [=])|]. intros [_ Hall].
      destruct (Hall p) as (vs & Hvs); [|congruence].
      rewrite Eparts. apply in_or_app. right. now left.
Qed.

Lemma parseField_succeeds_iff_witness :
  exists r, parseField "1-3, jan ,*/4" 3 = Ok r.
Proof.
  apply (proj2 (parseField_succeeds_iff "1-3, jan ,*/4" 3
                  (mkFieldDef "month" 1 12) eq_refl)).
  split; [discriminate|].
  intros p Hp. simpl in Hp.
  destruct Hp as [<-|[<-|[<-|[]]]]; eexists; vm_compute; reflexivity.
Defined.

(** X11.  When the expansion of a field fails, either its text is empty and
    the error is [MissingField], or the error is that of its first token that
    fails: the tokens before it expand, the tokens after it are not looked
    at. *)
Theorem parseField_first_error
    (fieldStr : string) (defIndex : nat) (def : FieldDef) (e : error) :
  nth_error FIELD_DEFS defIndex = Some def ->
  parseField fieldStr defIndex = Err e ->
  fieldStr = "" /\ e = MissingField \/
  exists l1 p l2,
    fieldParts fieldStr = (l1 ++ p :: l2)%list /\
    (forall q, In q l1 ->
               exists vs, parseToken q (min def) (max def) defIndex = Ok vs) /\
    parseToken p (min def) (max def) defIndex = Err e.
Proof.
  intros Hdef. unfold parseField. rewrite Hdef.
  pose proof (concatTokens_cases def defIndex (fieldParts fieldStr) []) as Hc.
  destruct (String.eqb fieldStr "") eqn:E.
  - apply eqb_empty in E. intros [= <-]. now left.
  - destruct (concatTokens (Some def) defIndex (fieldParts fieldStr) [])
      as [values|e']; cbn [bind]; [discriminate|].
    intros [= <-]. now right.
Qed.

Lemma parseField_first_error_witness :
  "1,70,x" = "" /\ OutOfBounds "70" 0 59 = MissingField \/
  exists l1 p l2,
    fieldParts "1,70,x" = (l1 ++ p :: l2)%list /\
    (forall q, In q l1 -> exists vs, parseToken q 0 59 0 = Ok vs) /\
    parseToken p 0 59 0 = Err (OutOfBounds "70" 0 59).
Proof.
  apply (parseField_first_error "1,70,x" 0 (mkFieldDef "minute" 0 59)
           (OutOfBounds "70" 0 59)); reflexivity.
Defined.

(** X12.  Expansion distributes over the comma: when two field texts expand,
    the text made of both, with a comma between them, expands to the union of
    the two results. *)
Theorem parseField_union
    (fieldStr1 fieldStr2 : string) (defIndex : nat) (r1 r2 : list Z) :
  parseField fieldStr1 defIndex = Ok r1 ->
  parseField fieldStr2 defIndex = Ok r2 ->
  parseField (fieldStr1 ++ "," ++ fieldStr2) defIndex =
  Ok (uniqueSorted (r1 ++ r2)%list).
Proof.
  unfold parseField.
  destruct (String.eqb fieldStr1 ""); [discriminate|].
  destruct (String.eqb fieldStr2 ""); [discriminate|].
  assert (Hne : String.eqb (fieldStr1 ++ "," ++ fieldStr2) "" = false)
    by (destruct fieldStr1; reflexivity).
  rewrite Hne, fieldParts_app, concatTokens_app.
  destruct (concatTokens _ defIndex (fieldParts fieldStr1) []) as [v1|e];
    [|discriminate].
  cbn [bind]. rewrite (concatTokens_acc _ _ (fieldParts fieldStr2) v1).
  destruct (concatTokens _ defIndex (fieldParts fieldStr2) []) as [v2|e];
    [|discriminate].
  cbn [bind]. intros [= <-] [= <-]. f_equal.
  apply uniqueSorted_ext. intros x.
  rewrite !in_app_iff, !uniqueSorted_In. tauto.
Qed.

Lemma parseField_union_witness :
  parseField ("*/20" ++ "," ++ "5-45/20") 0 = Ok [0; 5; 20; 25; 40; 45].
Proof.
  apply (parseField_union "*/20" "5-45/20" 0 [0; 20; 40] [5; 25; 45]);
    vm_compute; reflexivity.
Defined.

(** ** Fields of numbers *)

Lemma join_head_nonempty (sep : string) (c : ascii) (r : string)
    (rest : list string) :
  exists r', Js.join sep (String c r :: rest) = String c r'.
Proof. destruct rest; simpl; eauto. Qed.

Lemma fieldParts_numbers (l : list Z) :
  l <> [] -> Forall (fun x => 0 <= x) l ->
  fieldParts (Js.join "," (map Js.String_ l)) = map Js.String_ l.
Proof.
  intros Hne Hpos. unfold fieldParts.
  rewrite split_join.
  - clear Hne. induction Hpos as [|x rest Hx Hrest IH]; [reflexivity|].
    destruct (String_nonneg x Hx) as (Hdig & c & r & E & _).
    destruct (numeric_token _ (digits_numeric _ Hdig)) as (Htrim & _ & _).
    cbn [map filter]. rewrite Htrim, IH, E. reflexivity.
  - destruct l; [contradiction | discriminate].
  - apply Forall_map. eapply Forall_impl; [|exact Hpos].
    intros x Hx. destruct (String_nonneg x Hx) as (Hdig & _).
    apply (digits_no_sep "," _ eq_refl Hdig).
Qed.

Lemma concatTokens_numbers (def : FieldDef) (defIndex : nat) (l values : list Z) :
  Forall (fun x => min def <= x <= max def /\ 0 <= x /\
                   (defIndex = 4%nat -> x <> 7)) l ->
  concatTokens (Some def) defIndex (map Js.String_ l) values =
  Ok (values ++ l)%list.
Proof.
  intros H. revert values.
  induction H as [|x rest (Hin & H0 & H7) Hrest IH]; intros values.
  - simpl. now rewrite app_nil_r.
  - cbn [map concatTokens]. rewrite (parseToken_value x _ _ _ H0 H7).
    replace (outOfBounds (min def) (max def) x x) with false
      by (symmetry; apply outOfBounds_false; lia).
    cbn [bind]. rewrite IH, <- app_assoc. reflexivity.
Qed.

Lemma domain_numbers (defIndex : nat) (def : FieldDef) (l : list Z) :
  nth_error FIELD_DEFS defIndex = Some def ->
  Forall (fun x => min def <= x <= max def) l ->
  Forall (fun x => min def <= x <= max def /\ 0 <= x /\
                   (defIndex = 4%nat -> x <> 7)) l.
Proof.
  intros Hdef. destruct (FIELD_DEFS_domains _ _ Hdef) as (Hmin & _ & Hdow).
  apply Forall_impl. intros x Hx. split; [exact Hx|]. split; [lia|].
  intros E. specialize (Hdow E). lia.
Qed.

Lemma numbers_text_nonempty (l : list Z) :
  l <> [] -> Forall (fun x => 0 <= x) l ->
  String.eqb (Js.join "," (map Js.String_ l)) "" = false.
Proof.
  intros Hne Hpos. destruct l as [|x rest]; [contradiction|].
  inversion Hpos as [|? ? Hx _]; subst.
  destruct (String_nonneg x Hx) as (_ & c & r & E & _).
  cbn [map]. rewrite E.
  destruct (join_head_nonempty "," c r (map Js.String_ rest)) as (r' & ->).
  reflexivity.
Qed.

Lemma domain_nonneg (defIndex : nat) (def : FieldDef) (l : list Z) :
  nth_error FIELD_DEFS defIndex = Some def ->
  Forall (fun x => min def <= x <= max def) l ->
  Forall (fun x => 0 <= x) l.
Proof.
  intros Hdef Hin.
  eapply Forall_impl; [|exact (domain_numbers _ _ _ Hdef Hin)].
  simpl. tauto.
Qed.

(** X13.  A field text that lists numbers of the domain of the field,
    separated by commas, expands to these numbers in ascending order, each
    once. *)
Theorem number_list_expands (defIndex : nat) (def : FieldDef) (l : list Z) :
  nth_error FIELD_DEFS defIndex = Some def ->
  l <> [] ->
  Forall (fun x => min def <= x <= max def) l ->
  parseField (Js.join "," (map Js.String_ l)) defIndex = Ok (uniqueSorted l).
Proof.
  intros Hdef Hne Hin.
  pose proof (domain_nonneg _ _ _ Hdef Hin) as Hpos.
  unfold parseField.
  rewrite Hdef, (numbers_text_nonempty l Hne Hpos).
  rewrite (fieldParts_numbers l Hne Hpos).
  rewrite (concatTokens_numbers def defIndex l []
             (domain_numbers _ _ _ Hdef Hin)).
  reflexivity.
Qed.

Lemma number_list_expands_witness :
  parseField "15,1,31,15" 2 = Ok [1; 15; 31].
Proof.
  apply (number_list_expands 2 (mkFieldDef "day of month" 1 31) [15; 1; 31; 15]).
  - reflexivity.
  - discriminate.
  - repeat constructor; simpl; lia.
Defined.

Lemma parseField_values (fieldStr : string) (defIndex : nat) (r : list Z) :
  parseField fieldStr defIndex = Ok r ->
  exists values,
    concatTokens (nth_error FIELD_DEFS defIndex) defIndex
                 (fieldParts fieldStr) [] = Ok values /\
    r = uniqueSorted values.
Proof.
  unfold parseField.
  destruct (String.eqb fieldStr ""); [discriminate|].
  destruct (concatTokens _ _ _ _) as [values|e]; [|discriminate].
  cbn [bind]. intros [= <-]. eauto.
Qed.

(** X14.  An ExpandedField can be written back and read again: the result of
    an expansion, when it is not empty, written as a list with commas, is a
    field text of the same field that expands to this very result. *)
Theorem expansion_round_trip
    (fieldStr : string) (defIndex : nat) (r : list Z) :
  parseField fieldStr defIndex = Ok r ->
  r <> [] ->
  parseField (Js.join "," (map Js.String_ r)) defIndex = Ok r.
Proof.
  intros Hr Hne.
  destruct (parseField_values _ _ _ Hr) as (values & Hv & ->).
  destruct (nth_error FIELD_DEFS defIndex) as [def|] eqn:Hdef.
  - assert (Hin : Forall (fun x => min def <= x <= max def)
                         (uniqueSorted values)).
    { apply Forall_forall. intros x Hx.
      apply (proj1 (uniqueSorted_In _ _)) in Hx.
      apply (concatTokens_In _ _ _ _ _ Hv) in Hx
        as [[]|(p & vs & _ & Ep & Hx)].
      apply parseToken_bounds in Ep. rewrite Forall_forall in Ep.
      now apply Ep. }
    pose proof (domain_nonneg _ _ _ Hdef Hin) as Hpos.
    unfold parseField.
    rewrite Hdef, (numbers_text_nonempty _ Hne Hpos).
    rewrite (fieldParts_numbers _ Hne Hpos).
    rewrite (concatTokens_numbers def defIndex _ []
               (domain_numbers _ _ _ Hdef Hin)).
    cbn [bind app]. f_equal. apply uniqueSorted_id, uniqueSorted_sorted.
  - apply concatTokens_undefined in Hv as [_ ->]. now elim Hne.
Qed.

Lemma expansion_round_trip_witness :
  parseField "0,2,4,5,6" 4 = Ok [0; 2; 4; 5; 6].
Proof.
  apply (expansion_round_trip "fri,7,*/2" 4 [0; 2; 4; 5; 6]);
    [vm_compute; reflexivity | discriminate].
Defined.

(** ** Fields without a token *)

Lemma split_pieces (P : ascii -> bool) (sep : ascii) (s : string) :
  allChars P s = true ->
  Forall (fun t => allChars (fun c => P c && negb (Ascii.eqb c sep)) t = true)
         (Js.split sep s).
Proof.
  induction s as [|c r IH]; cbn [allChars Js.split].
  - intros _. now repeat constructor.
  - intros H. apply andb_prop in H as [Hc Hr]. specialize (IH Hr).
    destruct (Ascii.eqb c sep) eqn:E.
    + constructor; [reflexivity | exact IH].
    + destruct (Js.split sep r) as [|h t];
        [constructor; [cbn [allChars]; now rewrite Hc, E | constructor]|].
      inversion IH as [|? ? Hh Ht]; subst.
      constructor; [|exact Ht]. cbn [allChars]. now rewrite Hc, E, Hh.
Qed.

(** X15.  A field text that is not empty and holds nothing but commas and
    white space has no token: it is not rejected, and it expands to the empty
    sequence. *)
Theorem field_without_token (fieldStr : string) (defIndex : nat) :
  fieldStr <> "" ->
  allChars (fun c => Js.isWhiteSpace c || Ascii.eqb c ",") fieldStr = true ->
  parseField fieldStr defIndex = Ok [].
Proof.
  intros Hne Hall. unfold parseField.
  destruct (String.eqb fieldStr "") eqn:E;
    [apply eqb_empty in E; contradiction|].
  assert (Hparts : fieldParts fieldStr = []).
  { unfold fieldParts.
    pose proof (split_pieces _ "," fieldStr Hall) as Hp.
    induction Hp as [|t rest Ht Hrest IH]; [reflexivity|].
    cbn [map filter]. rewrite IH.
    rewrite trim_blank; [reflexivity|].
    unfold isBlank. revert Ht. apply allChars_impl.
    intros c Hc. apply andb_prop in Hc as [H1 H2].
    apply negb_true_iff in H2. rewrite H2, orb_false_r in H1. exact H1. }
  rewrite Hparts. reflexivity.
Qed.

Lemma field_without_token_witness : parseField ", ," 0 = Ok [].
Proof. apply (field_without_token ", ," 0); [discriminate | reflexivity]. Defined.

(** ** formatOutput *)

Lemma String_chars (n : Z) :
  allChars (fun c => Js.isDigit c || Ascii.eqb c "-") (Js.String_ n) = true.
Proof.
  assert (Hd : forall s, allChars Js.isDigit s = true ->
                         allChars (fun c => Js.isDigit c || Ascii.eqb c "-") s
                         = true).
  { intros s. apply allChars_impl. intros c ->. reflexivity. }
  destruct n as [|p|p].
  - reflexivity.
  - apply Hd, (String_nonneg (Zpos p)). lia.
  - unfold Js.String_. cbn [Z.to_int NilEmpty.string_of_int allChars].
    apply Hd, string_of_uint_digits.
Qed.

Lemma String_no_sep (sep : ascii) (n : Z) :
  Js.isDigit sep || Ascii.eqb sep "-" = false ->
  Js.includes sep (Js.String_ n) = false.
Proof.
  intros H.
  apply (includes_allChars (fun c => Js.isDigit c || Ascii.eqb c "-"));
    [exact H | apply String_chars].
Qed.

Lemma includes_join (c : ascii) (sep : string) (ts : list string) :
  Js.includes c sep = false ->
  Forall (fun t => Js.includes c t = false) ts ->
  Js.includes c (Js.join sep ts) = false.
Proof.
  intros Hsep. induction 1 as [|t rest Ht Hrest IH]; [reflexivity|].
  destruct rest as [|u rest']; [exact Ht|].
  change (Js.join sep (t :: u :: rest'))
    with (t ++ sep ++ Js.join sep (u :: rest')).
  now rewrite !includes_app, Ht, Hsep, IH.
Qed.

Lemma numbers_no_sep (sep : ascii) (xs : list Z) :
  Js.isDigit sep || Ascii.eqb sep "-" = false ->
  Forall (fun t => Js.includes sep t = false) (map Js.String_ xs).
Proof.
  intros H. apply Forall_map, Forall_forall. intros x _.
  now apply String_no_sep.
Qed.

Lemma fieldLines_length (defs : list FieldDef) (i : nat)
    (expanded : list (list Z)) :
  (i + List.length defs <= List.length expanded)%nat ->
  exists lines,
    fieldLines defs i expanded = Ok lines /\
    forall k d,
      nth_error defs k = Some d ->
      exists xs,
        nth_error expanded (i + k) = Some xs /\
        nth_error lines k =
        Some (padLeftRight (name d) 14 ++ Js.join " " (map Js.String_ xs)).
Proof.
  revert i. induction defs as [|d rest IH]; intros i Hlen.
  - exists []. split; [reflexivity|]. intros k d Hk. now destruct k.
  - cbn [fieldLines]. simpl in Hlen.
    destruct (nth_error expanded i) as [xs|] eqn:Ei.
    + destruct (IH (S i)) as (lines & -> & Hlines); [lia|]. cbn [bind].
      eexists. split; [reflexivity|].
      intros [|k] d' Hk.
      * injection Hk as <-. exists xs. rewrite Nat.add_0_r. auto.
      * destruct (Hlines k d' Hk) as (ys & Hy & Hl).
        exists ys. rewrite Nat.add_succ_r. auto.
    + apply nth_error_None in Ei. lia.
Qed.

Lemma fieldLines_undefined (defs : list FieldDef) (i : nat)
    (expanded : list (list Z)) :
  (i <= List.length expanded)%nat ->
  (List.length expanded < i + List.length defs)%nat ->
  fieldLines defs i expanded = Err TypeError.
Proof.
  revert i. induction defs as [|d rest IH]; intros i Hi Hlen; simpl in Hlen;
    [lia|].
  cbn [fieldLines].
  destruct (nth_error expanded i) as [xs|] eqn:Ei; [|reflexivity].
  assert (i < List.length expanded)%nat
    by (apply nth_error_Some; congruence).
  rewrite IH; [reflexivity | lia | lia].
Qed.

(** X16.  [formatOutput] needs the five expansions: it returns a text when
    [expanded] has at least five members, and raises a [TypeError] when it
    has fewer. *)
Theorem formatOutput_defined (expanded : list (list Z)) (command : string) :
  ((5 <= List.length expanded)%nat ->
   exists text, formatOutput expanded command = Ok text) /\
  ((List.length expanded < 5)%nat ->
   formatOutput expanded command = Err TypeError).
Proof.
  unfold formatOutput. split; intros H.
  - destruct (fieldLines_length FIELD_DEFS 0 expanded) as (lines & -> & _);
      [simpl; lia|].
    cbn [bind]. eauto.
  - rewrite fieldLines_undefined by (simpl; lia). reflexivity.
Qed.

Lemma formatOutput_defined_witness :
  (exists text, formatOutput [[0]; [1]; [2]; [3]; [4]] "ls" = Ok text) /\
  formatOutput [[0]; [1]] "ls" = Err TypeError.
Proof.
  split.
  - apply (proj1 (formatOutput_defined [[0]; [1]; [2]; [3]; [4]] "ls")).
    simpl. lia.
  - apply (proj2 (formatOutput_defined [[0]; [1]] "ls")). simpl. lia.
Defined.

Lemma Ok_inj {A : Type} (a b : A) : Ok a = Ok b -> a = b.
Proof. now intros [= ->]. Qed.

(** The six lines of the text, and that none holds a line feed. *)
Lemma formatOutput_text (e0 e1 e2 e3 e4 : list Z) (more : list (list Z))
    (command : string) :
  formatOutput (e0 :: e1 :: e2 :: e3 :: e4 :: more) command =
  Ok (Js.join Js.LF
        [ "minute        " ++ Js.join " " (map Js.String_ e0);
          "hour          " ++ Js.join " " (map Js.String_ e1);
          "day of month  " ++ Js.join " " (map Js.String_ e2);
          "month         " ++ Js.join " " (map Js.String_ e3);
          "day of week   " ++ Js.join " " (map Js.String_ e4);
          "command       " ++ command ]).
Proof. reflexivity. Qed.

Lemma field_line_no_LF (label : string) (xs : list Z) :
  Js.includes (ascii_of_nat 10) label = false ->
  Js.includes (ascii_of_nat 10) (label ++ Js.join " " (map Js.String_ xs))
  = false.
Proof.
  intros Hl. rewrite includes_app, Hl.
  apply includes_join; [reflexivity | now apply numbers_no_sep].
Qed.

(** X17.  The text of [formatOutput] has six lines when the command has no
    line feed: the five fields in their order, then the command, each after a
    label of fourteen characters, the numbers of a field separated by one
    space. *)
Theorem formatOutput_six_lines
    (e0 e1 e2 e3 e4 : list Z) (more : list (list Z)) (command : string) :
  Js.includes (ascii_of_nat 10) command = false ->
  exists text,
    formatOutput (e0 :: e1 :: e2 :: e3 :: e4 :: more) command = Ok text /\
    Js.split (ascii_of_nat 10) text =
    [ "minute        " ++ Js.join " " (map Js.String_ e0);
      "hour          " ++ Js.join " " (map Js.String_ e1);
      "day of month  " ++ Js.join " " (map Js.String_ e2);
      "month         " ++ Js.join " " (map Js.String_ e3);
      "day of week   " ++ Js.join " " (map Js.String_ e4);
      "command       " ++ command ].
Proof.
  intros Hcmd. eexists. split; [apply formatOutput_text|].
  unfold Js.LF. apply split_join; [discriminate|].
  repeat constructor; try (now apply field_line_no_LF).
  now rewrite includes_app, Hcmd.
Qed.

Lemma formatOutput_six_lines_witness :
  exists text,
    formatOutput [[0; 30]; [0]; [1]; [1]; [1]] "/bin/true" = Ok text /\
    Js.split (ascii_of_nat 10) text =
    [ "minute        0 30"; "hour          0"; "day of month  1";
      "month         1"; "day of week   1"; "command       /bin/true" ].
Proof.
  apply (formatOutput_six_lines [0; 30] [0] [1] [1] [1] [] "/bin/true").
  reflexivity.
Defined.





(** ** The fields that main passes on *)

Lemma trimEnd_tail (c : ascii) (r : string) :
  Js.trimEnd (String c r) = String c r -> Js.trimEnd r = r.
Proof.
  cbn [Js.trimEnd]. destruct (Js.trimEnd r) as [|d r'] eqn:E.
  - destruct (Js.isWhiteSpace c); [discriminate|]. now intros [= <-].
  - now intros [= <-].
Qed.

Lemma trimEnd_idem (s : string) : Js.trimEnd (Js.trimEnd s) = Js.trimEnd s.
Proof.
  induction s as [|c r IH]; [reflexivity|]. cbn [Js.trimEnd].
  destruct (Js.trimEnd r) as [|d r'] eqn:E.
  - destruct (Js.isWhiteSpace c) eqn:Hc; [reflexivity|].
    cbn [Js.trimEnd]. now rewrite Hc.
  - cbn [Js.trimEnd] in *. now rewrite IH.
Qed.

Lemma trimStart_fixed (s : string) :
  Js.trimEnd s = s -> Js.trimEnd (Js.trimStart s) = Js.trimStart s.
Proof.
  induction s as [|c r IH]; [reflexivity|]. intros H. cbn [Js.trimStart].
  destruct (Js.isWhiteSpace c); [|exact H].
  apply IH. exact (trimEnd_tail c r H).
Qed.

Lemma trim_fixed (s : string) : Js.trimEnd (Js.trim s) = Js.trim s.
Proof. unfold Js.trim. apply trimStart_fixed, trimEnd_idem. Qed.

Lemma trimStart_head (s : string) (c : ascii) (r : string) :
  Js.trimStart s = String c r -> Js.isWhiteSpace c = false.
Proof.
  induction s as [|d s' IH]; [discriminate|]. cbn [Js.trimStart].
  destruct (Js.isWhiteSpace d) eqn:Hd; [exact IH|].
  intros [= <- <-]. exact Hd.
Qed.

Lemma splitWhiteSpace_noWs (s : string) :
  Forall (fun p => allChars (fun c => negb (Js.isWhiteSpace c)) p = true)
         (Js.splitWhiteSpace s).
Proof.
  induction s as [|c r IH]; [now repeat constructor|].
  cbn [Js.splitWhiteSpace].
  destruct (Js.isWhiteSpace c) eqn:Hc.
  - destruct r as [|c' r']; [now repeat constructor|].
    destruct (Js.isWhiteSpace c'); [exact IH | now constructor].
  - destruct (Js.splitWhiteSpace r) as [|h t].
    + constructor; [cbn [allChars]; now rewrite Hc | constructor].
    + inversion IH as [|? ? Hh Ht]; subst.
      constructor; [cbn [allChars]; now rewrite Hc, Hh | exact Ht].
Qed.

Lemma splitWhiteSpace_tail (s : string) :
  Js.trimEnd s = s ->
  Forall (fun p => p <> "") (tl (Js.splitWhiteSpace s)).
Proof.
  induction s as [|c r IH]; [constructor|].
  intros H. pose proof (trimEnd_tail c r H) as Hr. specialize (IH Hr).
  cbn [Js.splitWhiteSpace].
  destruct (Js.isWhiteSpace c) eqn:Hc.
  - destruct r as [|c' r'].
    + cbn [Js.trimEnd] in H. rewrite Hc in H. discriminate H.
    + destruct (Js.isWhiteSpace c') eqn:Hc'; [exact IH|].
      cbn [tl]. cbn [Js.splitWhiteSpace] in *. rewrite Hc' in *.
      destruct (Js.splitWhiteSpace r') as [|h t];
        (constructor; [discriminate | exact IH]).
  - destruct (Js.splitWhiteSpace r) as [|h t]; [constructor | exact IH].
Qed.

Lemma splitWhiteSpace_trimmed (s : string) :
  Js.trim s <> "" ->
  Forall (fun p => p <> "") (Js.splitWhiteSpace (Js.trim s)).
Proof.
  intros Hne. pose proof (trim_fixed s) as Hfix.
  pose proof (splitWhiteSpace_tail _ Hfix) as Htl.
  destruct (Js.trim s) as [|c r] eqn:E; [contradiction|].
  assert (Hc : Js.isWhiteSpace c = false)
    by (exact (trimStart_head _ c r E)).
  cbn [Js.splitWhiteSpace] in *. rewrite Hc in *.
  destruct (Js.splitWhiteSpace r) as [|h t];
    (constructor; [discriminate | exact Htl]).
Qed.

Lemma main_parts_nonblank_aux (argv : list string) :
  Js.trim (Js.join " " (skipn 2 argv)) <> "" ->
  Forall (fun p => p <> "")
         (Js.splitWhiteSpace (Js.trim (Js.join " " (skipn 2 argv)))).
Proof. apply splitWhiteSpace_trimmed. Qed.

(** X19.  The parts into which [main] splits the expression are never empty
    and hold no white space, however the arguments were spaced; so no field
    that [main] passes to [parseField] is empty or blank. *)
Theorem main_parts_not_blank (argv : list string) :
  let raw := Js.trim (Js.join " " (skipn 2 argv)) in
  raw <> "" ->
  Forall (fun p => p <> "" /\
                   allChars (fun c => negb (Js.isWhiteSpace c)) p = true)
         (Js.splitWhiteSpace raw).
Proof.
  intros raw Hne.
  pose proof (splitWhiteSpace_trimmed _ Hne) as H1.
  pose proof (splitWhiteSpace_noWs raw) as H2.
  fold raw in H1. rewrite Forall_forall in *. intros p Hp. auto.
Qed.

Lemma main_parts_not_blank_witness :
  Forall (fun p => p <> "" /\
                   allChars (fun c => negb (Js.isWhiteSpace c)) p = true)
         ["*"; "*"; "1"; "x"].
Proof.
  apply (main_parts_not_blank ["node"; "cron"; " *  * "; "1"; " x "]).
  discriminate.
Defined.

(** ** main *)

Lemma eqb_empty_false (s : string) : s <> "" -> String.eqb s "" = false.
Proof. destruct s; [contradiction | reflexivity]. Qed.

Lemma expandFields_cases (timeFields : list string) (i : nat) :
  match expandFields timeFields i with
  | Ok expanded =>
      List.length expanded = List.length timeFields /\
      forall k f, nth_error timeFields k = Some f ->
                  exists r, parseField f (i + k) = Ok r /\
                            nth_error expanded k = Some r
  | Err e =>
      exists k f,
        nth_error timeFields k = Some f /\
        parseField f (i + k) = Err e /\
        forall j g, (j < k)%nat -> nth_error timeFields j = Some g ->
                    exists r, parseField g (i + j) = Ok r
  end.
Proof.
  revert i. induction timeFields as [|f rest IH]; intros i.
  - simpl. split; [reflexivity|]. intros k f Hk. now destruct k.
  - cbn [expandFields].
    destruct (parseField f i) as [x|e] eqn:Ef; cbn [bind].
    + specialize (IH (S i)).
      destruct (expandFields rest (S i)) as [xs|e]; cbn [bind].
      * destruct IH as (Hlen & Hall). split; [simpl; congruence|].
        intros [|k] g Hk.
        -- injection Hk as <-. exists x. rewrite Nat.add_0_r. auto.
        -- destruct (Hall k g Hk) as (r & Hr & Hn).
           exists r. rewrite Nat.add_succ_r. auto.
      * destruct IH as (k & g & Hk & Hg & Hbefore).
        exists (S k), g. rewrite Nat.add_succ_r.
        split; [exact Hk|]. split; [exact Hg|].
        intros [|j] h Hj Hh.
        -- injection Hh as <-. exists x. now rewrite Nat.add_0_r.
        -- rewrite Nat.add_succ_r. apply (Hbefore j h); [lia | exact Hh].
    + exists 0%nat, f. rewrite Nat.add_0_r.
      split; [reflexivity|]. split; [exact Ef|]. intros j g Hj. lia.
Qed.

Lemma firstn_nth_error {A : Type} (n k : nat) (l : list A) :
  (k < n)%nat -> nth_error (firstn n l) k = nth_error l k.
Proof.
  revert k l. induction n as [|n IH]; intros k l Hk; [lia|].
  destruct l as [|a l]; [now destruct k|].
  destruct k as [|k]; [reflexivity|]. simpl. apply IH. lia.
Qed.

(** The four ways in which [main] ends. *)
Lemma main_cases (engineMessage : string) (argv : list string) :
  let raw := Js.trim (Js.join " " (skipn 2 argv)) in
  let parts := Js.splitWhiteSpace raw in
  (raw = "" /\
   exists l1 l2, main engineMessage argv = mkOutcome [] [l1; l2] 1) \/
  (raw <> "" /\ (List.length parts < 6)%nat /\
   exists l, main engineMessage argv = mkOutcome [] [l] 2) \/
  (raw <> "" /\ (6 <= List.length parts)%nat /\
   exists expanded text,
     expandFields (firstn 5 parts) 0 = Ok expanded /\
     formatOutput expanded (Js.join " " (skipn 5 parts)) = Ok text /\
     main engineMessage argv = mkOutcome [text] [] 0) \/
  (raw <> "" /\ (6 <= List.length parts)%nat /\
   exists e,
     expandFields (firstn 5 parts) 0 = Err e /\
     main engineMessage argv =
     mkOutcome [] ["Error parsing cron expression: " ++ message engineMessage e] 3).
Proof.
  intros raw parts. unfold main. fold raw. fold parts.
  destruct (String.eqb raw "") eqn:E.
  - left. apply eqb_empty in E. split; [exact E | eauto].
  - right. assert (Hne : raw <> "").
    { intros H. apply eqb_empty in H. congruence. }
    destruct (Nat.ltb_spec (List.length parts) 6) as [Hlt|Hge].
    + left. split; [exact Hne|]. split; [exact Hlt | eauto].
    + right.
      pose proof (expandFields_cases (firstn 5 parts) 0) as Hc.
      destruct (expandFields (firstn 5 parts) 0) as [expanded|e]; cbn [bind].
      * left. split; [exact Hne|]. split; [exact Hge|].
        destruct Hc as (Hlen & _).
        rewrite firstn_length_le in Hlen by lia.
        destruct (fieldLines_length FIELD_DEFS 0 expanded) as (lines & Hl & _);
          [simpl; lia|].
        unfold formatOutput. rewrite Hl. cbn [bind].
        exists expanded. eexists. rewrite Hl. cbn [bind]. repeat split.
      * right. split; [exact Hne|]. split; [exact Hge | eauto].
Qed.

(** X20.  The exit code of [main]: 1 exactly when the arguments hold no
    expression (nothing but white space), 2 exactly when there is one with
    fewer than six parts, and otherwise 0 or 3. *)
Theorem main_exit_codes (engineMessage : string) (argv : list string) :
  let raw := Js.trim (Js.join " " (skipn 2 argv)) in
  let code := exitCode (main engineMessage argv) in
  (code = 1 <-> raw = "") /\
  (code = 2 <->
   raw <> "" /\ (List.length (Js.splitWhiteSpace raw) < 6)%nat) /\
  (code = 0 \/ code = 1 \/ code = 2 \/ code = 3).
Proof.
  intros raw code. unfold code.
  destruct (main_cases engineMessage argv)
    as [(Hraw & l1 & l2 & ->)
       |[(Hraw & Hlen & l & ->)
        |[(Hraw & Hlen & expanded & text & _ & _ & ->)
         |(Hraw & Hlen & e & _ & ->)]]];
    fold raw in Hraw; try fold raw in Hlen; cbn [exitCode];
    (split; [|split]); try tauto; try lia;
    split; try discriminate; try tauto; intros [_ H]; lia.
Qed.

(** X21.  No partial output: a run that exits with 0 has written one text to
    the standard output and nothing to the standard error; a run that exits
    with another code has written to the standard error only. *)
Theorem main_no_partial_output (engineMessage : string) (argv : list string) :
  let o := main engineMessage argv in
  (exitCode o = 0 /\ stderr o = [] /\ exists text, stdout o = [text]) \/
  (exitCode o <> 0 /\ stdout o = [] /\ stderr o <> []).
Proof.
  intros o. unfold o.
  destruct (main_cases engineMessage argv)
    as [(_ & l1 & l2 & ->)
       |[(_ & _ & l & ->)
        |[(_ & _ & expanded & text & _ & _ & ->)
         |(_ & _ & e & _ & ->)]]];
    cbn [exitCode stdout stderr];
    [right | right | left; eauto | right];
    repeat split; discriminate.
Qed.

Lemma parseField_own_errors (f : string) (k : nat) (def : FieldDef) (e : error) :
  nth_error FIELD_DEFS k = Some def ->
  f <> "" ->
  parseField f k = Err e ->
  e <> MissingField /\ e <> TypeError.
Proof.
  intros Hdef Hne. unfold parseField. rewrite Hdef.
  destruct (String.eqb f "") eqn:E; [apply eqb_empty in E; contradiction|].
  pose proof (concatTokens_cases def k (fieldParts f) []) as Hc.
  destruct (concatTokens (Some def) k (fieldParts f) []) as [values|e'];
    cbn [bind]; [discriminate|].
  intros [= <-]. destruct Hc as (_ & p & _ & _ & _ & Hp).
  exact (parseToken_not_engine _ _ _ _ _ Hp).
Qed.

Lemma main_failing_field (argv : list string) (e : error) :
  let raw := Js.trim (Js.join " " (skipn 2 argv)) in
  let parts := Js.splitWhiteSpace raw in
  raw <> "" -> (6 <= List.length parts)%nat ->
  expandFields (firstn 5 parts) 0 = Err e ->
  exists k f,
    (k < 5)%nat /\ nth_error parts k = Some f /\ parseField f k = Err e /\
    (forall j g, (j < k)%nat -> nth_error parts j = Some g ->
                 exists r, parseField g j = Ok r) /\
    e <> MissingField /\ e <> TypeError.
Proof.
  intros raw parts Hraw Hlen He.
  pose proof (expandFields_cases (firstn 5 parts) 0) as Hc.
  rewrite He in Hc. destruct Hc as (k & f & Hk & Hf & Hbefore).
  assert (Hk5 : (k < 5)%nat).
  { assert (k < List.length (firstn 5 parts))%nat
      by (apply nth_error_Some; congruence).
    rewrite firstn_length_le in H by lia. exact H. }
  rewrite firstn_nth_error in Hk by exact Hk5.
  exists k, f. cbn [Nat.add] in Hf.
  assert (Hdef : exists def, nth_error FIELD_DEFS k = Some def).
  { do 5 (destruct k as [|k]; [simpl; eauto|]). lia. }
  destruct Hdef as (def & Hdef).
  assert (Hne : f <> "").
  { pose proof (main_parts_nonblank_aux argv Hraw) as Hall.
    rewrite Forall_forall in Hall.
    apply (Hall f). eapply nth_error_In. exact Hk. }
  destruct (parseField_own_errors f k def e Hdef Hne Hf) as (H1 & H2).
  repeat split; try assumption.
  intros j g Hj Hg. apply (Hbefore j g Hj).
  rewrite firstn_nth_error by lia. exact Hg.
Qed.

(** X22.  When [main] exits with 3, one of the five fields failed: the
    diagnostic is that of the first field that fails, the fields before it
    expand, and the error is one that [parseToken] raised for a token of this
    field, never a missing field and never an error of the engine. *)
Theorem main_first_failure (engineMessage : string) (argv : list string) :
  let raw := Js.trim (Js.join " " (skipn 2 argv)) in
  let parts := Js.splitWhiteSpace raw in
  exitCode (main engineMessage argv) = 3 ->
  exists k f e,
    (k < 5)%nat /\ nth_error parts k = Some f /\ parseField f k = Err e /\
    (forall j g, (j < k)%nat -> nth_error parts j = Some g ->
                 exists r, parseField g j = Ok r) /\
    e <> MissingField /\ e <> TypeError /\
    stderr (main engineMessage argv) =
    ["Error parsing cron expression: " ++ message engineMessage e].
Proof.
  intros raw parts.
  destruct (main_cases engineMessage argv)
    as [(_ & l1 & l2 & ->)
       |[(_ & _ & l & ->)
        |[(_ & _ & expanded & text & _ & _ & ->)
         |(Hraw & Hlen & e & He & ->)]]];
    cbn [exitCode stderr]; try discriminate.
  intros _.
  destruct (main_failing_field argv e Hraw Hlen He)
    as (k & f & Hk & Hf & Hp & Hbefore & H1 & H2).
  exists k, f, e. repeat split; assumption.
Qed.

Lemma main_first_failure_witness :
  exists k f e,
    (k < 5)%nat /\
    nth_error ["*"; "24"; "x"; "*"; "*"; "ls"] k = Some f /\
    parseField f k = Err e /\
    (forall j g, (j < k)%nat ->
                 nth_error ["*"; "24"; "x"; "*"; "*"; "ls"] j = Some g ->
                 exists r, parseField g j = Ok r) /\
    e <> MissingField /\ e <> TypeError /\
    stderr (main "" ["node"; "cron"; "* 24 x * * ls"]) =
    ["Error parsing cron expression: " ++ message "" e].
Proof.
  apply (main_first_failure "" ["node"; "cron"; "* 24 x * * ls"]).
  reflexivity.
Defined.

(** X23.  The outcome of [main] does not depend on the engine: no run ends
    with the message of a [TypeError]. *)
Theorem main_engine_independent (m1 m2 : string) (argv : list string) :
  main m1 argv = main m2 argv.
Proof.
  destruct (main_cases m1 argv)
    as [(Hraw & _)
       |[(Hraw & Hlen & _)
        |[(Hraw & Hlen & expanded & text & He & Hf & _)
         |(Hraw & Hlen & e & He & _)]]];
    unfold main.
  - now rewrite Hraw.
  - apply eqb_empty_false in Hraw. rewrite Hraw.
    apply Nat.ltb_lt in Hlen. now rewrite Hlen.
  - reflexivity || (apply eqb_empty_false in Hraw; rewrite Hraw;
      apply Nat.ltb_ge in Hlen; rewrite Hlen, He; cbn [bind];
      now rewrite Hf).
  - destruct (main_failing_field argv e Hraw Hlen He)
      as (_ & _ & _ & _ & _ & _ & _ & Hte).
    apply eqb_empty_false in Hraw. rewrite Hraw.
    apply Nat.ltb_ge in Hlen. rewrite Hlen, He. cbn [bind].
    destruct e; try reflexivity. now elim Hte.
Qed.

Lemma includes_LF_noWs (p : string) :
  allChars (fun c => negb (Js.isWhiteSpace c)) p = true ->
  Js.includes (ascii_of_nat 10) p = false.
Proof.
  apply (includes_allChars (fun c => negb (Js.isWhiteSpace c))). reflexivity.
Qed.

Lemma Forall_skipn {A : Type} (P : A -> Prop) (n : nat) (l : list A) :
  Forall P l -> Forall P (skipn n l).
Proof.
  intros H. revert n. induction H as [|a l Ha Hl IH]; intros [|n];
    simpl; auto.
Qed.

(** X24.  [main] exits with 0 exactly when the expression has at least six
    parts and each of its first five parts expands as the field of its
    position. *)
Theorem main_succeeds_iff (engineMessage : string) (argv : list string) :
  let raw := Js.trim (Js.join " " (skipn 2 argv)) in
  let parts := Js.splitWhiteSpace raw in
  exitCode (main engineMessage argv) = 0 <->
  raw <> "" /\ (6 <= List.length parts)%nat /\
  forall k f, (k < 5)%nat -> nth_error parts k = Some f ->
              exists r, parseField f k = Ok r.
Proof.
  intros raw parts.
  destruct (main_cases engineMessage argv)
    as [(Hraw & l1 & l2 & ->)
       |[(Hraw & Hlen & l & ->)
        |[(Hraw & Hlen & expanded & text & He & _ & ->)
         |(Hraw & Hlen & e & He & ->)]]];
    fold raw in Hraw; try fold raw in Hlen; try fold parts in Hlen;
    cbn [exitCode].
  - split; [discriminate | tauto].
  - split; [discriminate | intros (_ & H & _); lia].
  - split; [|reflexivity]. intros _. split; [exact Hraw|].
    split; [exact Hlen|]. intros k f Hk Hf.
    pose proof (expandFields_cases (firstn 5 parts) 0) as Hc.
    fold raw in He. fold parts in He. rewrite He in Hc.
    destruct Hc as (_ & Hall).
    destruct (Hall k f) as (r & Hr & _);
      [now rewrite firstn_nth_error | eauto].
  - split; [discriminate|]. intros (_ & _ & Hall).
    destruct (main_failing_field argv e Hraw Hlen He)
      as (k & f & Hk & Hf & Hp & _).
    destruct (Hall k f Hk Hf) as (r & Hr). fold raw in Hp. congruence.
Qed.

(** X25.  What a successful run prints: one text of six lines; the line of
    each of the five fields is its label, padded to fourteen characters, and
    the numbers to which the part of its position expands, in ascending order
    with one space between them; the last line is the label [command] and the
    remaining parts with one space between them. *)
Theorem main_output (engineMessage : string) (argv : list string) :
  let raw := Js.trim (Js.join " " (skipn 2 argv)) in
  let parts := Js.splitWhiteSpace raw in
  exitCode (main engineMessage argv) = 0 ->
  exists text lines,
    stdout (main engineMessage argv) = [text] /\
    Js.split (ascii_of_nat 10) text = lines /\
    List.length lines = 6%nat /\
    (forall k d, nth_error FIELD_DEFS k = Some d ->
                 exists f r,
                   nth_error parts k = Some f /\ parseField f k = Ok r /\
                   nth_error lines k =
                   Some (padLeftRight (name d) 14
                           ++ Js.join " " (map Js.String_ r))) /\
    nth_error lines 5 =
    Some ("command       " ++ Js.join " " (skipn 5 parts)).
Proof.
  intros raw parts.
  destruct (main_cases engineMessage argv)
    as [(_ & l1 & l2 & ->)
       |[(_ & _ & l & ->)
        |[(Hraw & Hlen & expanded & text & He & Hf & ->)
         |(_ & _ & e & _ & ->)]]];
    cbn [exitCode stdout]; try discriminate.
  intros _. fold raw in Hraw, Hlen, He, Hf. fold parts in Hlen, He, Hf.
  pose proof (expandFields_cases (firstn 5 parts) 0) as Hc.
  rewrite He in Hc. destruct Hc as (Hl & Hall).
  rewrite firstn_length_le in Hl by lia.
  destruct expanded as [|e0 [|e1 [|e2 [|e3 [|e4 [|e5 more]]]]]];
    try discriminate Hl.
  assert (Hcmd : Js.includes (ascii_of_nat 10)
                   (Js.join " " (skipn 5 parts)) = false).
  { apply includes_join; [reflexivity|].
    apply Forall_skipn. pose proof (splitWhiteSpace_noWs raw) as Hws.
    eapply Forall_impl; [|exact Hws]. apply includes_LF_noWs. }
  rewrite formatOutput_text in Hf. apply Ok_inj in Hf. subst text.
  eexists. eexists. split; [reflexivity|].
  unfold Js.LF. rewrite split_join;
    [| discriminate
     | repeat constructor; try (now apply field_line_no_LF);
       now rewrite includes_app, Hcmd ].
  split; [reflexivity|].
  split; [reflexivity|]. split; [|reflexivity].
  intros k d Hd.
  assert (Hk : (k < 5)%nat).
  { assert (k < List.length FIELD_DEFS)%nat
      by (apply nth_error_Some; congruence).
    exact H. }
  destruct (nth_error parts k) as [f|] eqn:Ef;
    [|apply nth_error_None in Ef; lia].
  destruct (Hall k f) as (r & Hr & Hn); [now rewrite firstn_nth_error|].
  exists f, r. split; [reflexivity|]. split; [exact Hr|].
  do 5 (destruct k as [|k];
        [injection Hd as <-; injection Hn as <-; reflexivity|]).
  lia.
Qed.

Lemma main_output_witness :
  exists text lines,
    stdout (main "" ["node"; "cron"; "*/15 0 1,15 * 1-5 /usr/bin/find"])
    = [text] /\
    Js.split (ascii_of_nat 10) text = lines /\
    List.length lines = 6%nat /\
    (forall k d, nth_error FIELD_DEFS k = Some d ->
                 exists f r,
                   nth_error ["*/15"; "0"; "1,15"; "*"; "1-5"; "/usr/bin/find"] k
                   = Some f /\ parseField f k = Ok r /\
                   nth_error lines k =
                   Some (padLeftRight (name d) 14
                           ++ Js.join " " (map Js.String_ r))) /\
    nth_error lines 5 = Some ("command       " ++ "/usr/bin/find").
Proof.
  apply (main_output "" ["node"; "cron"; "*/15 0 1,15 * 1-5 /usr/bin/find"]).
  reflexivity.
Defined.

(** The expression of the usage note, from the arguments to the text. *)
Example usage_end_to_end :
  exists text,
    main "" ["node"; "cron"; "*/15 0 1,15 * 1-5 /usr/bin/find"]
    = mkOutcome [text] [] 0 /\
    Js.split (ascii_of_nat 10) text =
    [ "minute        0 15 30 45";
      "hour          0";
      "day of month  1 15";
      "month         1 2 3 4 5 6 7 8 9 10 11 12";
      "day of week   1 2 3 4 5";
      "command       /usr/bin/find" ].
Proof. eexists. split; vm_compute; reflexivity. Qed.

Lemma main_succeeds_iff_witness :
  exitCode (main "" ["node"; "cron"; "0 12 * * mon-fri"; "echo hi"]) = 0.
Proof.
  apply (proj2 (main_succeeds_iff "" ["node"; "cron"; "0 12 * * mon-fri"; "echo hi"])).
  split; [discriminate|]. split; [simpl; lia|].
  intros k f Hk Hf.
  do 5 (destruct k as [|k];
        [injection Hf as <-; eexists; vm_compute; reflexivity|]).
  lia.
Defined.
